(** * dice-roll: the notation parser and the roll evaluator of [dice-roll.py]

    A shallow embedding of [src/dice-roll/dice-roll.py] and the properties
    of its parser ([process_dice] and the four [get_*] steps) and of its
    evaluator ([roll], [roll_main]).

    Modelling choices.
    - Python [int] is unbounded: [Z]. The conversions between [int] and
      [str] obey the interpreter's default limit of 4300 digits
      ([sys.int_max_str_digits]) and raise [ValueError] above it.
    - A Python [str] is a [string]; a character is the code point it
      holds, so the development covers the strings over U+0000..U+00FF.
      On that range [str.isnumeric] is true of the ten decimal digits
      and of the six characters U+00B2, U+00B3, U+00B9, U+00BC, U+00BD
      and U+00BE (superscripts and vulgar fractions), which [int]
      refuses.
    - [raise ValueError()] and the exceptions of the built-ins are the
      [Raise] branch of an error monad; [try ... except: return None] of
      [process_dice] collapses it to [option].
    - The [random] module is a random source whose state is threaded
      explicitly through [roll]; its primitive [_randbelow] is a
      variable of the evaluator, and what is proved holds for every
      random source.
    - [rich.print] of a panel is an event appended to a log; an
      exception that escapes [roll_main] is returned next to the log.
      The message of the output panel is built first, as the f-string
      of [roll_main] is, so its exceptions escape before anything is
      printed. *)

From Stdlib Require Import ZArith List String Ascii Bool Lia.
From Stdlib Require Import DecimalString DecimalPos.
Import ListNotations.

Local Open Scope string_scope.
Local Open Scope Z_scope.

(** ** Exceptions as an error monad *)

Inductive exn : Type := ValueError.

Inductive result (A : Type) : Type :=
| Ok (a : A)
| Raise (e : exn).

Arguments Ok {A} a.
Arguments Raise {A} e.

Definition bind {A B : Type} (m : result A) (k : A -> result B) : result B :=
  match m with
  | Ok a => k a
  | Raise e => Raise e
  end.

Notation "x <- m ;; k" := (bind m (fun x => k))
  (at level 61, m at next level, right associativity).
Notation "' p <- m ;; k" := (bind m (fun x => match x with p => k end))
  (at level 61, p pattern, m at next level, right associativity).

(** [try: m except: return None] *)
Definition try_except {A : Type} (m : result A) : option A :=
  match m with
  | Ok a => Some a
  | Raise _ => None
  end.

(** ** The data model *)

Inductive RollOperation : Type :=
| ADD
| SUB
| INDV_ADD
| INDV_SUB
| NO_OPERATION.

Record DiceRoll : Type := mkDiceRoll {
  count : Z;
  die_type : Z;
  operation : RollOperation;
  operand : Z
}.

(** ** Built-ins of [str] *)

(** [c.isnumeric()] for a single character. *)
Definition char_isnumeric (c : ascii) : bool :=
  let n := N_of_ascii c in
  ((48 <=? n) && (n <=? 57) || (n =? 178) || (n =? 179) || (n =? 185)
   || (188 <=? n) && (n <=? 190))%N.

(** The decimal value of a character, for [int]: only the ten decimal
    digits have one. *)
Definition char_decimal (c : ascii) : option Z :=
  let n := N_of_ascii c in
  if ((48 <=? n) && (n <=? 57))%N then Some (Z.of_N n - 48) else None.

Fixpoint all_numeric (s : string) : bool :=
  match s with
  | EmptyString => true
  | String c s' => char_isnumeric c && all_numeric s'
  end.

(** [s.isnumeric()]: at least one character, and all of them numeric. *)
Definition isnumeric (s : string) : bool :=
  match s with
  | EmptyString => false
  | String _ _ => all_numeric s
  end.

(** The interpreter's limit on the number of digits of a conversion
    between [int] and [str], [sys.int_max_str_digits]: 4300 unless the
    interpreter is told otherwise. *)
Definition int_max_str_digits : Z := 4300.

(** The string has more characters than the limit allows digits. *)
Definition too_long (s : string) : bool :=
  int_max_str_digits <? Z.of_nat (String.length s).

(** [int(s)] on the strings the program passes to it, which have all
    passed [isnumeric] (so no sign, blank or underscore): the base-10
    value; [ValueError] on more digits than the limit allows (zeros in
    front count), on a character that is not a decimal digit and on the
    empty string. *)
Fixpoint int_acc (s : string) (acc : Z) : result Z :=
  match s with
  | EmptyString => Ok acc
  | String c s' =>
      match char_decimal c with
      | Some d => int_acc s' (acc * 10 + d)
      | None => Raise ValueError
      end
  end.

Definition int (s : string) : result Z :=
  match s with
  | EmptyString => Raise ValueError
  | String _ _ => if too_long s then Raise ValueError else int_acc s 0
  end.

(** [s.split('d')]: the pieces between the occurrences of the separator;
    never an empty list. *)
Fixpoint split (sep : ascii) (s : string) : list string :=
  match s with
  | EmptyString => [EmptyString]
  | String c s' =>
      if Ascii.eqb c sep then EmptyString :: split sep s'
      else match split sep s' with
           | piece :: pieces => String c piece :: pieces
           | [] => [String c EmptyString]
           end
  end.

(** [s[i:]] *)
Fixpoint slice_from (i : nat) (s : string) : string :=
  match i, s with
  | O, _ => s
  | S i', String _ s' => slice_from i' s'
  | S _, EmptyString => EmptyString
  end.

(** ** The parser *)

(** [get_count]: the number of dice and what follows the ['d']. *)
Definition get_count (dice : string) : result (Z * string) :=
  let split := split "d" dice in
  let split0 := nth 0 split EmptyString in
  if negb (isnumeric split0) || negb (Nat.eqb (List.length split) 2)
  then Raise ValueError
  else n <- int split0 ;; Ok (n, nth 1 split EmptyString).

(** The [while] loop of [get_die_type], run on the suffix [dice[i:]]:
    returns the final [count] and [i]. *)
Fixpoint get_die_type_loop (rest : string) (count : Z) (i : nat)
  : result (Z * nat) :=
  match rest with
  | EmptyString => Ok (count, i)
  | String c rest' =>
      if char_isnumeric c
      then d <- int (String c EmptyString) ;;
           get_die_type_loop rest' (count * 10 + d) (S i)
      else Ok (count, i)
  end.

Definition get_die_type (dice : string) : result (Z * string) :=
  '(count, i) <- get_die_type_loop dice 0 O ;;
  if Nat.eqb i 0 then Raise ValueError
  else Ok (count, slice_from i dice).

Definition get_operation (dice : string) : result (RollOperation * string) :=
  match dice with
  | EmptyString => Ok (NO_OPERATION, EmptyString)
  | String c0 rest1 =>
      if Ascii.eqb c0 "+" then Ok (ADD, rest1)
      else if Ascii.eqb c0 "-" then Ok (SUB, rest1)
      else if Ascii.eqb c0 "." then
        match rest1 with
        | EmptyString => Raise ValueError
        | String c1 rest2 =>
            if Ascii.eqb c1 "+" then Ok (INDV_ADD, rest2)
            else if Ascii.eqb c1 "-" then Ok (INDV_SUB, rest2)
            else Raise ValueError
        end
      else Raise ValueError
  end.

Definition get_operand (dice : string) : result Z :=
  match dice with
  | EmptyString => Ok 0
  | String _ _ =>
      if negb (isnumeric dice) then Raise ValueError else int dice
  end.

Definition process_dice (dice : string) : option DiceRoll :=
  try_except (
    '(count, dice) <- get_count dice ;;
    '(die_type, dice) <- get_die_type dice ;;
    '(op, dice) <- get_operation dice ;;
    operand <- get_operand dice ;;
    Ok (mkDiceRoll count die_type op operand)).

(** ** The evaluator *)

(** [sum], [max] and [min] of a list of integers; the last two raise
    [ValueError] on an empty list. *)
Definition sum (l : list Z) : Z := fold_left Z.add l 0.

Definition max (l : list Z) : result Z :=
  match l with
  | [] => Raise ValueError
  | x :: l' => Ok (fold_left Z.max l' x)
  end.

Definition min (l : list Z) : result Z :=
  match l with
  | [] => Raise ValueError
  | x :: l' => Ok (fold_left Z.min l' x)
  end.

(** Lines 151-156 of [roll_main]: the aggregate selected by [--max] and
    [--min]. *)
Definition aggregate (use_max use_min : bool) (dice_roll_result : list Z)
  : result Z :=
  if use_max then max dice_roll_result
  else if use_min then min dice_roll_result
  else Ok (sum dice_roll_result).

(** The decimal digits of an integer that is not negative. *)
Definition digits_of (n : N) : string :=
  NilEmpty.string_of_uint (N.to_uint n).

(** The integer has more digits than the limit allows. *)
Definition exceeds_limit (x : Z) : bool := too_long (digits_of (Z.abs_N x)).

(** [str(x)], also [repr(x)] and [f"{x}"], of an integer: its decimal
    digits, after a minus sign when it is negative; [ValueError] above
    the limit. *)
Definition str_int (x : Z) : result string :=
  if exceeds_limit x then Raise ValueError
  else Ok (if x <? 0 then String "-" (digits_of (Z.abs_N x))
           else digits_of (Z.abs_N x)).

(** [repr] of a list of integers, between the brackets: the elements in
    order, separated by a comma and a blank. *)
Fixpoint repr_items (l : list Z) : result string :=
  match l with
  | [] => Ok EmptyString
  | x :: l' =>
      s <- str_int x ;;
      match l' with
      | [] => Ok s
      | _ :: _ => rest <- repr_items l' ;; Ok (s ++ ", " ++ rest)%string
      end
  end.

Definition repr_list (l : list Z) : result string :=
  items <- repr_items l ;; Ok ("[" ++ items ++ "]")%string.

(** The f-string of line 163,
    [f"{dice}: {dice_roll_result} -> {result}"]. *)
Definition output_message (dice : string) (dice_roll_result : list Z)
  (final : Z) : result string :=
  results <- repr_list dice_roll_result ;;
  aggregated <- str_int final ;;
  Ok (dice ++ ": " ++ results ++ " -> " ++ aggregated)%string.

(** What [rich.print] shows: the red error panel of [print_error] and the
    panel of [print_output], whose message
    [f"{dice}: {dice_roll_result} -> {result}"] is kept as its three
    parts. *)
Inductive event : Type :=
| ErrorPanel (msg : string)
| OutputPanel (title : string) (dice : string)
              (dice_roll_result : list Z) (result : Z).

Section Evaluator.

(** The random source of the [random] module: its state, and
    [_randbelow n], which returns an integer and the next state. *)
Context {Rng : Type}.
Variable randbelow : Z -> Rng -> Z * Rng.

(** [random.randint(a, b)] is [randrange(a, b + 1)]: [ValueError] on an
    empty range, else [a + _randbelow(b + 1 - a)]. *)
Definition randint (a b : Z) (g : Rng) : result (Z * Rng) :=
  let width := b + 1 - a in
  if 0 <? width
  then let '(r, g') := randbelow width g in Ok (a + r, g')
  else Raise ValueError.

(** The list comprehension of [roll], one draw per element of
    [range(num)]. *)
Fixpoint roll_range (num : nat) (die_type : Z) (operation : Z -> Z)
  (g : Rng) : result (list Z * Rng) :=
  match num with
  | O => Ok ([], g)
  | S num' =>
      '(x, g1) <- randint 1 die_type g ;;
      '(xs, g2) <- roll_range num' die_type operation g1 ;;
      Ok (operation x :: xs, g2)
  end.

(** [range(num)] is empty for [num <= 0]. *)
Definition roll (num die_type : Z) (operation : Z -> Z) (g : Rng)
  : result (list Z * Rng) :=
  roll_range (Z.to_nat num) die_type operation g.

(** Lines 144-161 of [roll_main]: the roll, the aggregation and the
    adjustment of the aggregate. *)
Definition roll_main_result (dice_roll : DiceRoll) (use_max use_min : bool)
  (g : Rng) : result (list Z * Z * Rng) :=
  '(dice_roll_result, g') <-
    match operation dice_roll with
    | INDV_ADD =>
        roll (count dice_roll) (die_type dice_roll)
             (fun x => x + operand dice_roll) g
    | INDV_SUB =>
        roll (count dice_roll) (die_type dice_roll)
             (fun x => x - operand dice_roll) g
    | _ => roll (count dice_roll) (die_type dice_roll) (fun x => x) g
    end ;;
  result <- aggregate use_max use_min dice_roll_result ;;
  let result :=
    match operation dice_roll with
    | ADD => result + operand dice_roll
    | SUB => result - operand dice_roll
    | _ => result
    end in
  Ok (dice_roll_result, result, g').

(** [roll_main]: what is printed, and how the call ends (the final
    state of the random source, or the exception that escapes). The
    message of the output panel is built before [print_output] is
    called. *)
Definition roll_main (dice : string) (use_max use_min : bool) (g : Rng)
  : list event * result Rng :=
  match process_dice dice with
  | None => ([ErrorPanel "Invalid format for argument 'Dice'"], Ok g)
  | Some dice_roll =>
      let log :=
        if count dice_roll <=? 0
        then [ErrorPanel "The number of dice rolled must be positive"]
        else [] in
      match roll_main_result dice_roll use_max use_min g with
      | Raise e => (log, Raise e)
      | Ok (dice_roll_result, result, g') =>
          match output_message dice dice_roll_result result with
          | Raise e => (log, Raise e)
          | Ok _ =>
              ((log ++
                [OutputPanel "Roll" dice dice_roll_result result])%list,
               Ok g')
          end
      end
  end.

(** The state of the random source after [k] draws of the same
    width. *)
Fixpoint advance (k : nat) (width : Z) (g : Rng) : Rng :=
  match k with
  | O => g
  | S k' => advance k' width (snd (randbelow width g))
  end.

End Evaluator.

(** A scripted random source for tests: the state is the list of values
    still to come, each reduced into the requested range; an exhausted
    script gives 0. *)
Definition script_randbelow (n : Z) (g : list Z) : Z * list Z :=
  match g with
  | [] => (0, [])
  | x :: g' => (x mod n, g')
  end.

(** ** Decimal strings *)

(** Every character is one of the ten decimal digits. *)
Fixpoint all_decimal (s : string) : bool :=
  match s with
  | EmptyString => true
  | String c s' =>
      match char_decimal c with
      | Some _ => all_decimal s'
      | None => false
      end
  end.

(** The base-10 value of a string of decimal digits, read left to right
    from [acc]. *)
Fixpoint digits_value (s : string) (acc : Z) : Z :=
  match s with
  | EmptyString => acc
  | String c s' => digits_value s' (acc * 10 + (Z.of_N (N_of_ascii c) - 48))
  end.

(** The separator does not occur in the string. *)
Fixpoint lacks (sep : ascii) (s : string) : bool :=
  match s with
  | EmptyString => true
  | String c s' => negb (Ascii.eqb c sep) && lacks sep s'
  end.

(** The digit loop of [get_die_type] stops in front of this string. *)
Definition stops (t : string) : bool :=
  match t with
  | EmptyString => true
  | String c _ => negb (char_isnumeric c)
  end.

(** The decimal digits of a positive integer, which [str(n)] returns
    when there are no more of them than the limit allows. *)
Definition str (n : positive) : string :=
  NilEmpty.string_of_uint (Pos.to_uint n).

(** The modifier sign that [get_operation] reads as [op]. *)
Definition sign_of (op : RollOperation) : string :=
  match op with
  | ADD => "+"
  | SUB => "-"
  | INDV_ADD => ".+"
  | INDV_SUB => ".-"
  | NO_OPERATION => EmptyString
  end.

(** The decimal digits of an integer that is not negative. *)
Definition str_N (n : N) : string := digits_of n.

(** [n] copies of a character. *)
Fixpoint replicate (n : nat) (c : ascii) : string :=
  match n with
  | O => EmptyString
  | S n' => String c (replicate n' c)
  end.

(** The notation of the help text of [roll_main],
    [<COUNT>d<DIE TYPE>[<OPERATION><OPERAND>]], written out for a count,
    a die type, an operation and an operand; no operation, no operand. *)
Definition notation (c m : positive) (op : RollOperation) (k : N) : string :=
  str c ++ String "d" (str m ++ (sign_of op ++
    match op with
    | NO_OPERATION => EmptyString
    | _ => str_N k
    end)).

(** The shape of a string next to the spec it stands for: a count, a
    ['d'], a die type, the sign of the operation and an operand string,
    all three made of decimal digits, the first two not empty, the count
    and the operand string within the limit on digits, and the operand
    string empty when there is no operation. *)
Definition parses_as (dice : string) (r : DiceRoll) : Prop :=
  exists c m t,
    dice = (c ++ String "d" (m ++ (sign_of (operation r) ++ t)))%string /\
    c <> EmptyString /\ all_decimal c = true /\ too_long c = false /\
    count r = digits_value c 0 /\
    m <> EmptyString /\ all_decimal m = true /\
    die_type r = digits_value m 0 /\
    (operation r = NO_OPERATION -> t = EmptyString) /\
    all_decimal t = true /\ too_long t = false /\
    operand r = match t with
                | EmptyString => 0
                | String _ _ => digits_value t 0
                end.

(** What a spec adds to every die ([INDV_ADD], [INDV_SUB]) and what it
    adds to the aggregate ([ADD], [SUB]). *)
Definition per_die_shift (r : DiceRoll) : Z :=
  match operation r with
  | INDV_ADD => operand r
  | INDV_SUB => - operand r
  | _ => 0
  end.

Definition aggregate_shift (r : DiceRoll) : Z :=
  match operation r with
  | ADD => operand r
  | SUB => - operand r
  | _ => 0
  end.

(** * Properties of the parser *)

Lemma char_decimal_range c d : char_decimal c = Some d -> 0 <= d <= 9.
Proof.
  unfold char_decimal.
  destruct ((48 <=? N_of_ascii c)%N && (N_of_ascii c <=? 57)%N) eqn:E;
    [|discriminate].
  apply andb_true_iff in E as [E1 E2].
  apply N.leb_le in E1, E2. intros [= <-]. lia.
Qed.

Lemma char_decimal_value c d :
  char_decimal c = Some d -> d = Z.of_N (N_of_ascii c) - 48.
Proof.
  unfold char_decimal.
  destruct ((48 <=? N_of_ascii c)%N && (N_of_ascii c <=? 57)%N);
    congruence.
Qed.

Lemma char_decimal_isnumeric c d :
  char_decimal c = Some d -> char_isnumeric c = true.
Proof.
  unfold char_decimal, char_isnumeric.
  destruct ((48 <=? N_of_ascii c)%N && (N_of_ascii c <=? 57)%N);
    [reflexivity | discriminate].
Qed.

Lemma all_decimal_all_numeric s : all_decimal s = true -> all_numeric s = true.
Proof.
  induction s as [|c s IH]; simpl; [reflexivity|].
  destruct (char_decimal c) eqn:E; [|discriminate].
  intros H. rewrite (char_decimal_isnumeric _ _ E). simpl. auto.
Qed.

Lemma int_acc_spec s : forall acc,
  int_acc s acc =
  if all_decimal s then Ok (digits_value s acc) else Raise ValueError.
Proof.
  induction s as [|c s IH]; intros acc; simpl; [reflexivity|].
  destruct (char_decimal c) as [d|] eqn:E; [|reflexivity].
  rewrite IH, (char_decimal_value _ _ E). reflexivity.
Qed.

Lemma digits_value_nonneg s : forall acc,
  all_decimal s = true -> 0 <= acc -> 0 <= digits_value s acc.
Proof.
  induction s as [|c s IH]; intros acc; simpl; [auto|].
  destruct (char_decimal c) as [d|] eqn:E; [|discriminate].
  intros H Hacc. apply IH; [exact H|].
  pose proof (char_decimal_range _ _ E) as Hr.
  rewrite (char_decimal_value _ _ E) in Hr. lia.
Qed.

(** [int] succeeds exactly on the non-empty strings of decimal digits
    that are within the limit. *)
Lemma int_spec s :
  int s =
  match s with
  | EmptyString => Raise ValueError
  | String _ _ =>
      if all_decimal s && negb (too_long s)
      then Ok (digits_value s 0) else Raise ValueError
  end.
Proof.
  destruct s as [|c s]; [reflexivity|]. unfold int. rewrite int_acc_spec.
  destruct (too_long (String c s));
    [rewrite andb_false_r | rewrite andb_true_r]; reflexivity.
Qed.

(** One digit is always within the limit. *)
Lemma int_char c :
  int (String c EmptyString) =
  match char_decimal c with
  | Some d => Ok d
  | None => Raise ValueError
  end.
Proof.
  unfold int. change (too_long (String c EmptyString)) with false.
  cbn [int_acc]. destruct (char_decimal c); reflexivity.
Qed.

Lemma int_nonneg s v : int s = Ok v -> 0 <= v.
Proof.
  rewrite int_spec. destruct s as [|c s]; [discriminate|].
  destruct (all_decimal (String c s)) eqn:E; [|discriminate].
  destruct (too_long (String c s)); [discriminate|]. cbn [andb negb].
  intros H. replace v with (digits_value (String c s) 0) by congruence.
  apply digits_value_nonneg; [exact E | lia].
Qed.

(** [get_operand] on a non-empty string. *)
Lemma get_operand_spec s :
  get_operand s =
  match s with
  | EmptyString => Ok 0
  | String _ _ =>
      if all_decimal s && negb (too_long s)
      then Ok (digits_value s 0) else Raise ValueError
  end.
Proof.
  destruct s as [|c s]; [reflexivity|].
  unfold get_operand. rewrite int_spec.
  unfold isnumeric.
  destruct (all_decimal (String c s)) eqn:E.
  - rewrite (all_decimal_all_numeric _ E). reflexivity.
  - destruct (all_numeric (String c s)); reflexivity.
Qed.

Lemma get_operand_nonneg s v : get_operand s = Ok v -> 0 <= v.
Proof.
  rewrite get_operand_spec. destruct s as [|c s]; [intros [= <-]; lia|].
  destruct (all_decimal (String c s)) eqn:E; [|discriminate].
  destruct (too_long (String c s)); [discriminate|]. cbn [andb negb].
  intros H. replace v with (digits_value (String c s) 0) by congruence.
  apply digits_value_nonneg; [exact E | lia].
Qed.

Lemma get_count_nonneg s v rest : get_count s = Ok (v, rest) -> 0 <= v.
Proof.
  unfold get_count.
  destruct (negb _ || negb _); [discriminate|].
  destruct (int (nth 0 (split "d" s) EmptyString)) as [n|e] eqn:E;
    simpl; [|discriminate].
  intros [= <- _]. exact (int_nonneg _ _ E).
Qed.

Lemma get_die_type_loop_nonneg rest : forall acc i v j,
  0 <= acc -> get_die_type_loop rest acc i = Ok (v, j) -> 0 <= v.
Proof.
  induction rest as [|c rest IH]; intros acc i v j Hacc;
    cbn [get_die_type_loop].
  - intros [= <- _]. exact Hacc.
  - destruct (char_isnumeric c); [|intros [= <- _]; exact Hacc].
    rewrite int_char.
    destruct (char_decimal c) as [d|] eqn:E; cbn [bind]; [|discriminate].
    apply IH. pose proof (char_decimal_range _ _ E). lia.
Qed.

Lemma get_die_type_nonneg s v rest : get_die_type s = Ok (v, rest) -> 0 <= v.
Proof.
  unfold get_die_type.
  destruct (get_die_type_loop s 0 0) as [[n i]|e] eqn:E; simpl;
    [|discriminate].
  destruct (Nat.eqb i 0); [discriminate|].
  intros [= <- _]. apply (get_die_type_loop_nonneg _ _ _ _ _ (Z.le_refl 0) E).
Qed.

(** A successful parse is a success of each of the four steps. *)
Lemma process_dice_Some dice r :
  process_dice dice = Some r ->
  exists rest1 rest2 rest3,
    get_count dice = Ok (count r, rest1) /\
    get_die_type rest1 = Ok (die_type r, rest2) /\
    get_operation rest2 = Ok (operation r, rest3) /\
    get_operand rest3 = Ok (operand r).
Proof.
  unfold process_dice.
  destruct (get_count dice) as [[c rest1]|] eqn:E1; simpl; [|discriminate].
  destruct (get_die_type rest1) as [[m rest2]|] eqn:E2; simpl; [|discriminate].
  destruct (get_operation rest2) as [[op rest3]|] eqn:E3; simpl;
    [|discriminate].
  destruct (get_operand rest3) as [k|] eqn:E4; simpl; [|discriminate].
  intros [= <-]. exists rest1, rest2, rest3. simpl. auto.
Qed.

(** *** [split] and the count segment *)

Lemma split_lacks sep s : lacks sep s = true -> split sep s = [s].
Proof.
  induction s as [|c s IH]; simpl; [reflexivity|].
  destruct (Ascii.eqb c sep); simpl; [discriminate|].
  intros H. rewrite (IH H). reflexivity.
Qed.

Lemma split_app sep s t :
  lacks sep s = true ->
  split sep (s ++ String sep t)%string = s :: split sep t.
Proof.
  induction s as [|c s IH]; simpl.
  - intros _. rewrite Ascii.eqb_refl. reflexivity.
  - destruct (Ascii.eqb c sep); simpl; [discriminate|].
    intros H. rewrite (IH H). reflexivity.
Qed.

(** With a single ['d'], after a non-empty run of decimal digits,
    [get_count] returns the value of the run and what follows the ['d']. *)
Lemma get_count_digits s t :
  all_decimal s = true -> s <> EmptyString -> too_long s = false ->
  lacks "d" t = true ->
  get_count (s ++ String "d" t)%string = Ok (digits_value s 0, t).
Proof.
  intros Hs Hne Hcap Ht. unfold get_count.
  assert (Hl : lacks "d" s = true).
  { clear Hne Hcap. induction s as [|c s IH]; simpl in *; [reflexivity|].
    destruct (char_decimal c) as [d|] eqn:E; [|discriminate].
    rewrite (IH Hs), andb_true_r.
    destruct (Ascii.eqb_spec c "d") as [->|]; [discriminate E | reflexivity]. }
  rewrite (split_app _ _ _ Hl), (split_lacks _ _ Ht). simpl.
  rewrite int_spec. destruct s as [|c s]; [congruence|].
  unfold isnumeric. rewrite (all_decimal_all_numeric _ Hs), Hs, Hcap.
  reflexivity.
Qed.

(** *** The digit loop of [get_die_type] *)

Lemma slice_from_app s t : slice_from (String.length s) (s ++ t) = t.
Proof. induction s as [|c s IH]; simpl; [destruct t; reflexivity | exact IH]. Qed.

Lemma get_die_type_loop_app s t : forall acc i,
  all_decimal s = true -> stops t = true ->
  get_die_type_loop (s ++ t) acc i =
  Ok (digits_value s acc, (i + String.length s)%nat).
Proof.
  induction s as [|c s IH]; intros acc i Hs Ht;
    cbn [append get_die_type_loop all_decimal digits_value String.length]
      in *.
  - rewrite Nat.add_0_r. destruct t as [|c t]; [reflexivity|].
    cbn [stops get_die_type_loop] in *.
    apply negb_true_iff in Ht. rewrite Ht. reflexivity.
  - destruct (char_decimal c) as [d|] eqn:E; [|discriminate].
    rewrite (char_decimal_isnumeric _ _ E), int_char, E. cbn [bind].
    rewrite (IH _ _ Hs Ht), (char_decimal_value _ _ E).
    rewrite Nat.add_succ_r. reflexivity.
Qed.

(** The die type is the maximal run of leading digits, which must not be
    empty. *)
Lemma get_die_type_digits s t :
  all_decimal s = true -> s <> EmptyString -> stops t = true ->
  get_die_type (s ++ t) = Ok (digits_value s 0, t).
Proof.
  intros Hs Hne Ht. unfold get_die_type.
  rewrite (get_die_type_loop_app _ _ _ _ Hs Ht). simpl.
  destruct s as [|c s]; [congruence|].
  change (Nat.eqb (String.length (String c s)) 0) with false. cbv iota.
  rewrite slice_from_app. reflexivity.
Qed.

(** *** Decimal rendering *)

Lemma all_decimal_string_of_uint d :
  all_decimal (NilEmpty.string_of_uint d) = true.
Proof. induction d; simpl; auto. Qed.

Lemma lacks_string_of_uint d : lacks "d" (NilEmpty.string_of_uint d) = true.
Proof. induction d; simpl; auto. Qed.

Lemma digits_value_of_uint_acc d : forall acc,
  digits_value (NilEmpty.string_of_uint d) (Zpos acc) =
  Zpos (Pos.of_uint_acc d acc).
Proof.
  induction d; intros acc;
    cbn [NilEmpty.string_of_uint digits_value Pos.of_uint_acc];
    [reflexivity| ..];
    rewrite <- IHd; f_equal;
    match goal with
    | |- context [N_of_ascii ?c] =>
        let v := eval vm_compute in (Z.of_N (N_of_ascii c)) in
        change (Z.of_N (N_of_ascii c)) with v
    end; lia.
Qed.

Lemma digits_value_of_uint d :
  digits_value (NilEmpty.string_of_uint d) 0 = Z.of_N (Pos.of_uint d).
Proof.
  induction d; simpl; [reflexivity | exact IHd | ..];
    apply (digits_value_of_uint_acc d).
Qed.

Lemma all_decimal_str n : all_decimal (str n) = true.
Proof. apply all_decimal_string_of_uint. Qed.

Lemma str_nonempty n : str n <> EmptyString.
Proof.
  unfold str. pose proof (Unsigned.to_uint_nonnil n) as H.
  destruct (Pos.to_uint n); [congruence | discriminate ..].
Qed.

(** Reading back what [str] wrote. *)
Lemma digits_value_str n : digits_value (str n) 0 = Zpos n.
Proof.
  unfold str. rewrite digits_value_of_uint, Unsigned.of_to. reflexivity.
Qed.

(** *** Parsing a count, a ['d'], a die type and a tail *)

Lemma lacks_app sep s t :
  lacks sep (s ++ t) = lacks sep s && lacks sep t.
Proof.
  induction s as [|c s IH]; simpl; [reflexivity|].
  rewrite IH, andb_assoc. reflexivity.
Qed.

Lemma process_dice_digits c m t :
  all_decimal c = true -> c <> EmptyString -> too_long c = false ->
  all_decimal m = true -> m <> EmptyString ->
  lacks "d" m = true -> lacks "d" t = true -> stops t = true ->
  process_dice (c ++ String "d" (m ++ t)) =
  try_except (
    '(op, rest) <- get_operation t ;;
    operand <- get_operand rest ;;
    Ok (mkDiceRoll (digits_value c 0) (digits_value m 0) op operand)).
Proof.
  intros Hc Hcne Hcap Hm Hmne Hlm Hlt Ht. unfold process_dice.
  rewrite get_count_digits; auto.
  - simpl. rewrite get_die_type_digits; auto.
  - rewrite lacks_app, Hlm, Hlt. reflexivity.
Qed.

Lemma process_dice_str c m t :
  too_long (str c) = false -> lacks "d" t = true -> stops t = true ->
  process_dice (str c ++ String "d" (str m ++ t)) =
  try_except (
    '(op, rest) <- get_operation t ;;
    operand <- get_operand rest ;;
    Ok (mkDiceRoll (Zpos c) (Zpos m) op operand)).
Proof.
  intros Hcap Hlt Ht.
  rewrite process_dice_digits;
    auto using all_decimal_str, str_nonempty, lacks_string_of_uint.
  - rewrite !digits_value_str. reflexivity.
  - apply lacks_string_of_uint.
Qed.

(** *** More than one ['d'] *)

Lemma split_nonempty sep s : split sep s <> [].
Proof.
  destruct s as [|c s]; simpl; [discriminate|].
  destruct (Ascii.eqb c sep); [discriminate|].
  destruct (split sep s); discriminate.
Qed.

Lemma split_length_lacks sep s :
  lacks sep s = false -> (2 <= List.length (split sep s))%nat.
Proof.
  induction s as [|c s IH]; simpl; [discriminate|].
  destruct (Ascii.eqb c sep); simpl.
  - intros _. pose proof (split_nonempty sep s).
    destruct (split sep s); [congruence | simpl; lia].
  - intros H. specialize (IH H).
    destruct (split sep s); simpl in *; lia.
Qed.

Lemma all_decimal_lacks s : all_decimal s = true -> lacks "d" s = true.
Proof.
  induction s as [|c s IH]; simpl; [reflexivity|].
  destruct (char_decimal c) as [d|] eqn:E; [|discriminate].
  intros H. rewrite (IH H), andb_true_r.
  destruct (Ascii.eqb_spec c "d") as [->|]; [discriminate E | reflexivity].
Qed.

Lemma get_count_second_d s t :
  lacks "d" s = true -> lacks "d" t = false ->
  get_count (s ++ String "d" t) = Raise ValueError.
Proof.
  intros Hs Ht. unfold get_count. rewrite (split_app _ _ _ Hs).
  pose proof (split_length_lacks _ _ Ht) as Hl.
  destruct (split "d" t) as [|a [|b l]]; simpl in Hl; try lia.
  simpl. rewrite orb_true_r. reflexivity.
Qed.

(** *** The modifier *)

Lemma get_operation_sign_of op t :
  op <> NO_OPERATION -> get_operation (sign_of op ++ t) = Ok (op, t).
Proof. destruct op; intros H; [reflexivity .. | congruence]. Qed.

(** A count within the limit, a ['d'], a die type, a modifier sign and
    any operand string [t]: the operand is 0 when [t] is empty, the value
    of [t] when [t] is made of decimal digits within the limit, and the
    parse fails otherwise. *)
Lemma process_dice_modifier c m op t :
  too_long (str c) = false -> op <> NO_OPERATION ->
  process_dice (str c ++ String "d" (str m ++ (sign_of op ++ t))) =
  match t with
  | EmptyString => Some (mkDiceRoll (Zpos c) (Zpos m) op 0)
  | String _ _ =>
      if all_decimal t && negb (too_long t)
      then Some (mkDiceRoll (Zpos c) (Zpos m) op (digits_value t 0))
      else None
  end.
Proof.
  intros Hcap Hop. destruct (lacks "d" t) eqn:Ht.
  - rewrite process_dice_str.
    + rewrite (get_operation_sign_of _ _ Hop). cbn [bind].
      rewrite get_operand_spec. destruct t as [|a t]; [reflexivity|].
      destruct (all_decimal (String a t) && negb (too_long (String a t)));
        reflexivity.
    + exact Hcap.
    + rewrite lacks_app, Ht, andb_true_r. destruct op; auto; congruence.
    + destruct op; auto; congruence.
  - assert (Hd : all_decimal t = false).
    { destruct (all_decimal t) eqn:E; [|reflexivity].
      rewrite (all_decimal_lacks _ E) in Ht. discriminate. }
    unfold process_dice. rewrite get_count_second_d.
    + rewrite Hd. destruct t; [discriminate Ht | reflexivity].
    + apply lacks_string_of_uint.
    + rewrite !lacks_app, Ht, !andb_false_r. reflexivity.
Qed.

(** A count above the limit fails [get_count], whatever follows. *)
Lemma get_count_too_long s t :
  lacks "d" s = true -> too_long s = true ->
  get_count (s ++ String "d" t) = Raise ValueError.
Proof.
  intros Hl Hcap. unfold get_count. rewrite (split_app _ _ _ Hl).
  cbv zeta. cbn [nth].
  destruct (negb (isnumeric s) ||
            negb (Nat.eqb (List.length (s :: split "d" t)) 2));
    [reflexivity|].
  rewrite int_spec. destruct s as [|a s]; [reflexivity|].
  rewrite Hcap, andb_false_r. reflexivity.
Qed.

(** A minus sign where the operand starts fails the parse. *)
Lemma process_dice_minus_operand c m op t :
  op <> NO_OPERATION ->
  process_dice
    (str c ++ String "d" (str m ++ (sign_of op ++ String "-" t))) = None.
Proof.
  intros Hop. destruct (too_long (str c)) eqn:Hcap.
  - unfold process_dice.
    rewrite get_count_too_long;
      [reflexivity | apply lacks_string_of_uint | exact Hcap].
  - rewrite (process_dice_modifier _ _ _ _ Hcap Hop). reflexivity.
Qed.

(** *** Strings of digits and the numbers they stand for *)

Lemma all_decimal_uint s :
  all_decimal s = true -> exists d, s = NilEmpty.string_of_uint d.
Proof.
  induction s as [|c s IH]; [exists Decimal.Nil; reflexivity|].
  cbn [all_decimal]. destruct (char_decimal c) as [v|] eqn:E; [|discriminate].
  intros H. destruct (IH H) as [d ->].
  destruct c as [[|] [|] [|] [|] [|] [|] [|] [|]];
    cbv in E; try discriminate E;
    first [ exists (Decimal.D0 d); reflexivity
          | exists (Decimal.D1 d); reflexivity
          | exists (Decimal.D2 d); reflexivity
          | exists (Decimal.D3 d); reflexivity
          | exists (Decimal.D4 d); reflexivity
          | exists (Decimal.D5 d); reflexivity
          | exists (Decimal.D6 d); reflexivity
          | exists (Decimal.D7 d); reflexivity
          | exists (Decimal.D8 d); reflexivity
          | exists (Decimal.D9 d); reflexivity ].
Qed.

Lemma length_string_of_uint d :
  String.length (NilEmpty.string_of_uint d) = Decimal.nb_digits d.
Proof. induction d; simpl; congruence. Qed.

(** A number read from a string of digits within the limit has no more
    digits than the limit allows. *)
Lemma exceeds_limit_digits_value t :
  all_decimal t = true -> too_long t = false ->
  exceeds_limit (digits_value t 0) = false.
Proof.
  intros Hd Hcap. destruct (all_decimal_uint _ Hd) as [d ->].
  unfold exceeds_limit, digits_of.
  rewrite digits_value_of_uint, Zabs2N.id, Unsigned.to_of.
  destruct d as [|d|d|d|d|d|d|d|d|d|d]; [reflexivity| ..];
    unfold too_long in *; rewrite !length_string_of_uint in *;
    apply Z.ltb_ge; apply Z.ltb_ge in Hcap;
    match goal with
    | |- context [Decimal.unorm ?u] =>
        pose proof (DecimalFacts.nb_digits_unorm u ltac:(discriminate))
    end; lia.
Qed.

(** Writing back a number read from a string of digits that does not
    start with a zero gives the string. *)
Lemma str_digits_value t :
  all_decimal t = true ->
  match t with
  | EmptyString => false
  | String c _ => negb (Ascii.eqb c "0")
  end = true ->
  0 < digits_value t 0 /\ str (Z.to_pos (digits_value t 0)) = t.
Proof.
  intros Hd Hhead. destruct (all_decimal_uint _ Hd) as [d ->].
  rewrite digits_value_of_uint.
  assert (Hn : N.to_uint (Pos.of_uint d) = d).
  { rewrite Unsigned.to_of.
    destruct d; try reflexivity; discriminate Hhead. }
  destruct (Pos.of_uint d) as [|p].
  - rewrite <- Hn in Hhead. discriminate Hhead.
  - cbn [Z.of_N Z.to_pos]. split; [lia|]. unfold str.
    change (Pos.to_uint p) with (N.to_uint (Npos p)). rewrite Hn.
    reflexivity.
Qed.

Lemma append_empty_r s : (s ++ EmptyString)%string = s.
Proof. induction s as [|c s IH]; simpl; [reflexivity | now rewrite IH]. Qed.

(** A minus sign where the count starts fails [get_count]. *)
Lemma get_count_minus dice : get_count (String "-" dice) = Raise ValueError.
Proof.
  unfold get_count. simpl.
  pose proof (split_nonempty "d" dice).
  destruct (split "d" dice); [congruence | reflexivity].
Qed.

(** * The claims on the parser *)




(** C8, as the code has it (the counterexample to the claim as stated):
    the count written with 4301 ones is a positive integer, the string
    below is made of its decimal digits, a ['d'] and the decimal digits
    of the die type 6, and it does not parse: [int] refuses more than
    4300 digits. *)
Lemma C8_counterexample :
  0 < digits_value (replicate 4301 "1") 0 /\
  str (Z.to_pos (digits_value (replicate 4301 "1") 0)) =
  replicate 4301 "1" /\
  process_dice
    (str (Z.to_pos (digits_value (replicate 4301 "1") 0)) ++
     String "d" (str 6)) = None.
Proof.
  destruct (str_digits_value (replicate 4301 "1") eq_refl eq_refl)
    as [Hpos Hstr].
  split; [exact Hpos|]. split; [exact Hstr|].
  rewrite Hstr. reflexivity.
Qed.

(** C8, amended: for a positive [count] of no more digits than [int]
    accepts (4300) and a positive [dieType], the string made of the
    decimal digits of [count], a ['d'] and the decimal digits of
    [dieType] parses to that count and die type with no operation and
    operand 0; with a count of more digits it does not parse; ["0d6"]
    parses, with count 0. *)
Theorem C8_count_d_die_type_parses :
  (forall c m : positive,
     too_long (str c) = false ->
     process_dice (str c ++ String "d" (str m)) =
     Some (mkDiceRoll (Zpos c) (Zpos m) NO_OPERATION 0)) /\
  (forall c m : positive,
     too_long (str c) = true ->
     process_dice (str c ++ String "d" (str m)) = None) /\
  process_dice "0d6" = Some (mkDiceRoll 0 6 NO_OPERATION 0).
Proof.
  split; [|split; [|reflexivity]].
  - intros c m Hcap. rewrite <- (append_empty_r (str m)) at 1.
    rewrite process_dice_str; auto.
  - intros c m Hcap. unfold process_dice.
    rewrite get_count_too_long;
      [reflexivity | apply lacks_string_of_uint | exact Hcap].
Qed.

Lemma C8_count_d_die_type_parses_witness :
  process_dice "3d6" = Some (mkDiceRoll 3 6 NO_OPERATION 0).
Proof.
  apply (proj1 C8_count_d_die_type_parses 3 6)%positive. reflexivity.
Defined.

(** C9: each of the six malformed inputs fails to parse, whichever step
    raises (the count for the first, second and fourth, the die type for
    the third, the operation for the last two); and on every input, an
    exception raised at any step leaves nothing but [None]. *)
Theorem C9_malformed_inputs_fail :
  (get_count EmptyString = Raise ValueError /\
   process_dice EmptyString = None) /\
  (get_count "d6" = Raise ValueError /\ process_dice "d6" = None) /\
  (get_count "3d" = Ok (3, EmptyString) /\
   get_die_type EmptyString = Raise ValueError /\
   process_dice "3d" = None) /\
  (get_count "3x6" = Raise ValueError /\ process_dice "3x6" = None) /\
  (get_die_type "6." = Ok (6, ".") /\
   get_operation "." = Raise ValueError /\
   process_dice "3d6." = None) /\
  (get_die_type "6.x2" = Ok (6, ".x2") /\
   get_operation ".x2" = Raise ValueError /\
   process_dice "3d6.x2" = None) /\
  (forall dice,
     process_dice dice = None <->
     (exists e, get_count dice = Raise e) \/
     (exists c rest1 e,
        get_count dice = Ok (c, rest1) /\ get_die_type rest1 = Raise e) \/
     (exists c rest1 m rest2 e,
        get_count dice = Ok (c, rest1) /\
        get_die_type rest1 = Ok (m, rest2) /\
        get_operation rest2 = Raise e) \/
     (exists c rest1 m rest2 op rest3 e,
        get_count dice = Ok (c, rest1) /\
        get_die_type rest1 = Ok (m, rest2) /\
        get_operation rest2 = Ok (op, rest3) /\
        get_operand rest3 = Raise e)).
Proof.
  repeat match goal with |- _ /\ _ => split end; try reflexivity.
  intros dice. unfold process_dice.
  destruct (get_count dice) as [[c rest1]|e1] eqn:E1; simpl.
  2:{ split; [intros _; left; eauto | reflexivity]. }
  destruct (get_die_type rest1) as [[m rest2]|e2] eqn:E2; simpl.
  2:{ split; [intros _; right; left; repeat eexists; eassumption | reflexivity]. }
  destruct (get_operation rest2) as [[op rest3]|e3] eqn:E3; simpl.
  2:{ split; [intros _; right; right; left; repeat eexists; eassumption | reflexivity]. }
  destruct (get_operand rest3) as [k|e4] eqn:E4; simpl.
  2:{ split; [intros _; right; right; right; repeat eexists; eassumption | reflexivity]. }
  split; [discriminate|].
  intros [[e H]|[(c' & r1 & e & H1 & H2)|[(c' & r1 & m' & r2 & e & H1 & H2 & H3)
    |(c' & r1 & m' & r2 & op' & r3 & e & H1 & H2 & H3 & H4)]]];
    congruence.
Qed.

(** C10: a successful parse has a count, a die type and an operand that
    are all at least 0; a minus sign where the count starts, or where the
    operand starts after a modifier sign, makes the parse fail; and 0 is
    reached by all three fields at once. *)
Theorem C10_parsed_fields_nonneg :
  (forall dice r,
     process_dice dice = Some r ->
     0 <= count r /\ 0 <= die_type r /\ 0 <= operand r) /\
  (forall dice, process_dice (String "-" dice) = None) /\
  (forall (c m : positive) op t,
     op <> NO_OPERATION ->
     process_dice
       (str c ++ String "d" (str m ++ (sign_of op ++ String "-" t))) = None) /\
  process_dice "0d0+0" = Some (mkDiceRoll 0 0 ADD 0).
Proof.
  split; [|split; [|split; [|reflexivity]]].
  - intros dice r H.
    destruct (process_dice_Some _ _ H) as (r1 & r2 & r3 & H1 & H2 & H3 & H4).
    split; [exact (get_count_nonneg _ _ _ H1)|].
    split; [exact (get_die_type_nonneg _ _ _ H2)
           | exact (get_operand_nonneg _ _ H4)].
  - intros dice. unfold process_dice. rewrite get_count_minus. reflexivity.
  - intros c m op t Hop. apply process_dice_minus_operand. exact Hop.
Qed.

Lemma C10_parsed_fields_nonneg_witness :
  (0 <= count (mkDiceRoll 3 6 SUB 2) /\
   0 <= die_type (mkDiceRoll 3 6 SUB 2) /\
   0 <= operand (mkDiceRoll 3 6 SUB 2)) /\
  process_dice "3d6+-2" = None.
Proof.
  split.
  - apply (proj1 C10_parsed_fields_nonneg "3d6-2"). reflexivity.
  - apply (proj1 (proj2 (proj2 C10_parsed_fields_nonneg)) 3 6 ADD "2")%positive.
    discriminate.
Defined.

(** * Properties of the evaluator *)

Lemma fold_left_add l : forall a,
  fold_left Z.add l a = a + fold_right Z.add 0 l.
Proof.
  induction l as [|x l IH]; intros a; simpl; [lia|]. rewrite IH. lia.
Qed.

(** [sum] is the arithmetic sum. *)
Lemma sum_spec l : sum l = fold_right Z.add 0 l.
Proof. unfold sum. rewrite fold_left_add. lia. Qed.

Lemma fold_left_max l : forall x,
  (fold_left Z.max l x = x \/ In (fold_left Z.max l x) l) /\
  x <= fold_left Z.max l x /\
  Forall (fun y => y <= fold_left Z.max l x) l.
Proof.
  induction l as [|y l IH]; intros x; simpl.
  - split; [left; reflexivity | split; [lia | constructor]].
  - destruct (IH (Z.max x y)) as ([E|Hin] & Hle & Hall).
    + split; [|split; [lia | constructor; [lia | exact Hall]]].
      rewrite E. destruct (Z.max_spec x y) as [[_ ->]|[_ ->]]; auto.
    + split; [auto | split; [lia | constructor; [lia | exact Hall]]].
Qed.

Lemma fold_left_min l : forall x,
  (fold_left Z.min l x = x \/ In (fold_left Z.min l x) l) /\
  fold_left Z.min l x <= x /\
  Forall (fun y => fold_left Z.min l x <= y) l.
Proof.
  induction l as [|y l IH]; intros x; simpl.
  - split; [left; reflexivity | split; [lia | constructor]].
  - destruct (IH (Z.min x y)) as ([E|Hin] & Hle & Hall).
    + split; [|split; [lia | constructor; [lia | exact Hall]]].
      rewrite E. destruct (Z.min_spec x y) as [[_ ->]|[_ ->]]; auto.
    + split; [auto | split; [lia | constructor; [lia | exact Hall]]].
Qed.

(** [max] returns an element that no element exceeds. *)
Lemma max_spec l m :
  max l = Ok m -> In m l /\ Forall (fun y => y <= m) l.
Proof.
  destruct l as [|x l]; simpl; [discriminate|]. intros [= <-].
  destruct (fold_left_max l x) as ([E|Hin] & Hle & Hall).
  - split; [left; auto | constructor; auto].
  - split; [right; auto | constructor; auto].
Qed.

(** [min] returns an element that exceeds no element. *)
Lemma min_spec l m :
  min l = Ok m -> In m l /\ Forall (fun y => m <= y) l.
Proof.
  destruct l as [|x l]; simpl; [discriminate|]. intros [= <-].
  destruct (fold_left_min l x) as ([E|Hin] & Hle & Hall).
  - split; [left; auto | constructor; auto].
  - split; [right; auto | constructor; auto].
Qed.

(** C4: the aggregate is [max] whenever [--max] is set, also when
    [--min] is set too; [min] when only [--min] is set; the sum when
    neither is. [max] and [min] select the largest and the smallest
    element, and the sum is the arithmetic sum. *)
Theorem C4_aggregation_precedence (l : list Z) :
  (forall use_min, aggregate true use_min l = max l) /\
  aggregate true true l = max l /\
  aggregate false true l = min l /\
  aggregate false false l = Ok (fold_right Z.add 0 l) /\
  (forall m, max l = Ok m -> In m l /\ Forall (fun y => y <= m) l) /\
  (forall m, min l = Ok m -> In m l /\ Forall (fun y => m <= y) l) /\
  (l <> [] -> exists hi lo, max l = Ok hi /\ min l = Ok lo).
Proof.
  repeat match goal with |- _ /\ _ => split end;
    try reflexivity; try apply max_spec; try apply min_spec.
  - unfold aggregate. rewrite sum_spec. reflexivity.
  - destruct l; [congruence | simpl; eauto].
Qed.

Lemma C4_aggregation_precedence_witness :
  aggregate true true [2; 5; 1; 6] = Ok 6 /\
  (In 6 [2; 5; 1; 6] /\ Forall (fun y => y <= 6) [2; 5; 1; 6]) /\
  (In 1 [2; 5; 1; 6] /\ Forall (fun y => 1 <= y) [2; 5; 1; 6]).
Proof.
  pose proof (C4_aggregation_precedence [2; 5; 1; 6])
    as (_ & Hboth & _ & _ & Hmax & Hmin & _).
  split; [exact Hboth|].
  split; [apply Hmax | apply Hmin]; reflexivity.
Defined.

Section EvaluatorProperties.

Context {Rng : Type}.
Variable randbelow : Z -> Rng -> Z * Rng.

(** No draw on an empty range: a die type below 1 makes [randint]
    raise. *)
Lemma randint_empty d g : d <= 0 -> randint randbelow 1 d g = Raise ValueError.
Proof.
  intros H. unfold randint.
  destruct (Z.ltb_spec 0 (d + 1 - 1)); [lia | reflexivity].
Qed.

Lemma randint_draw d g :
  1 <= d ->
  randint randbelow 1 d g =
  Ok (1 + fst (randbelow d g), snd (randbelow d g)).
Proof.
  intros H. unfold randint.
  replace (d + 1 - 1) with d by lia.
  destruct (Z.ltb_spec 0 d); [|lia].
  destruct (randbelow d g); reflexivity.
Qed.

(** The per-die operation is applied to each draw and changes nothing
    else. *)
Lemma roll_range_map n d op : forall g,
  roll_range randbelow n d op g =
  '(raw, g') <- roll_range randbelow n d (fun x => x) g ;;
  Ok (map op raw, g').
Proof.
  induction n as [|n IH]; intros g; simpl; [reflexivity|].
  destruct (randint randbelow 1 d g) as [[x g1]|e]; simpl; [|reflexivity].
  rewrite IH.
  destruct (roll_range randbelow n d (fun x => x) g1) as [[xs g2]|e];
    reflexivity.
Qed.

Lemma roll_map num d op g :
  roll randbelow num d op g =
  '(raw, g') <- roll randbelow num d (fun x => x) g ;; Ok (map op raw, g').
Proof. apply roll_range_map. Qed.

Lemma roll_range_empty_die n d op g :
  d <= 0 -> roll_range randbelow (S n) d op g = Raise ValueError.
Proof. intros H. simpl. rewrite (randint_empty _ _ H). reflexivity. Qed.

(** [roll_main_result] from the raw draws. *)
Lemma roll_main_result_draws r use_max use_min g draws g' :
  roll randbelow (count r) (die_type r) (fun x => x) g = Ok (draws, g') ->
  roll_main_result randbelow r use_max use_min g =
  match operation r with
  | ADD =>
      a <- aggregate use_max use_min draws ;; Ok (draws, a + operand r, g')
  | SUB =>
      a <- aggregate use_max use_min draws ;; Ok (draws, a - operand r, g')
  | INDV_ADD =>
      a <- aggregate use_max use_min (map (fun x => x + operand r) draws) ;;
      Ok (map (fun x => x + operand r) draws, a, g')
  | INDV_SUB =>
      a <- aggregate use_max use_min (map (fun x => x - operand r) draws) ;;
      Ok (map (fun x => x - operand r) draws, a, g')
  | NO_OPERATION =>
      a <- aggregate use_max use_min draws ;; Ok (draws, a, g')
  end.
Proof.
  intros H. unfold roll_main_result.
  destruct (operation r); try rewrite H; try reflexivity;
    rewrite roll_map, H; reflexivity.
Qed.

(** The draws of a die with at least one face: one per die, in order,
    each the next value of the random source shifted into
    [1, die_type]. *)
Lemma roll_range_draws n d : forall g,
  1 <= d ->
  exists raw,
    roll_range randbelow n d (fun x => x) g =
    Ok (raw, advance randbelow n d g) /\
    List.length raw = n /\
    forall k, (k < n)%nat ->
      nth k raw 0 = 1 + fst (randbelow d (advance randbelow k d g)).
Proof.
  induction n as [|n IH]; intros g Hd; simpl.
  - exists []. repeat split. intros k Hk. lia.
  - rewrite (randint_draw _ _ Hd). simpl.
    destruct (IH (snd (randbelow d g)) Hd) as (raw & -> & Hlen & Hnth).
    simpl. eexists. split; [reflexivity|]. split; [simpl; lia|].
    intros [|k] Hk; simpl; [reflexivity | apply Hnth; lia].
Qed.

(** The operand of a parsed spec is within the limit on digits. *)
Lemma parsed_operand_within dice r :
  process_dice dice = Some r -> exceeds_limit (operand r) = false.
Proof.
  intros H.
  destruct (process_dice_Some _ _ H) as (r1 & r2 & r3 & _ & _ & _ & H4).
  rewrite get_operand_spec in H4. destruct r3 as [|a t].
  - injection H4 as <-. reflexivity.
  - destruct (all_decimal (String a t)) eqn:Hd; [|discriminate].
    destruct (too_long (String a t)) eqn:Hcap; [discriminate|].
    cbn [andb negb] in H4.
    replace (operand r) with (digits_value (String a t) 0) by congruence.
    apply exceeds_limit_digits_value; assumption.
Qed.

Lemma exceeds_limit_opp x : exceeds_limit (- x) = exceeds_limit x.
Proof. unfold exceeds_limit. rewrite Zabs2N.inj_opp. reflexivity. Qed.

(** The message of an empty roll is built when the aggregate is within
    the limit. *)
Lemma output_message_nil dice x :
  exceeds_limit x = false -> exists msg, output_message dice [] x = Ok msg.
Proof.
  intros H. unfold output_message, str_int. rewrite H.
  cbn [repr_list repr_items bind]. eauto.
Qed.

Lemma aggregate_ok use_max use_min (l : list Z) :
  use_max || use_min = false \/ l <> [] ->
  exists a, aggregate use_max use_min l = Ok a.
Proof.
  unfold aggregate. intros [H|H].
  - apply orb_false_iff in H as [-> ->]. eauto.
  - destruct l as [|x l]; [congruence|].
    destruct use_max, use_min; simpl; eauto.
Qed.

(** C2: when the parsed count is 0, [roll_main] prints the error panel
    on the count and goes on to roll; the roll draws nothing and returns
    the empty list, whose sum is 0 and whose [max] and [min] raise. With
    neither [--max] nor [--min] the output panel follows, showing the
    empty list and 0 adjusted by the operand; with either, the exception
    escapes after the error panel. *)
Theorem C2_zero_count (dice : string) (r : DiceRoll) (use_max use_min : bool)
  (g : Rng) :
  process_dice dice = Some r -> count r = 0 ->
  (forall op, roll randbelow (count r) (die_type r) op g = Ok ([], g)) /\
  aggregate false false [] = Ok 0 /\
  aggregate true use_min [] = Raise ValueError /\
  aggregate false true [] = Raise ValueError /\
  roll_main randbelow dice use_max use_min g =
  if use_max || use_min
  then ([ErrorPanel "The number of dice rolled must be positive"],
        Raise ValueError)
  else ([ErrorPanel "The number of dice rolled must be positive";
         OutputPanel "Roll" dice []
           match operation r with
           | ADD => 0 + operand r
           | SUB => 0 - operand r
           | _ => 0
           end],
        Ok g).
Proof.
  intros Hp Hc.
  assert (Hroll : forall op,
             roll randbelow (count r) (die_type r) op g = Ok ([], g)).
  { intros op. unfold roll. rewrite Hc. reflexivity. }
  repeat match goal with |- _ /\ _ => split end; try reflexivity;
    [exact Hroll|].
  unfold roll_main. rewrite Hp, Hc.
  rewrite (roll_main_result_draws _ _ _ _ _ _ (Hroll _)).
  pose proof (parsed_operand_within _ _ Hp) as Hk.
  destruct use_max; [destruct (operation r); reflexivity|].
  destruct use_min; [destruct (operation r); reflexivity|].
  cbn [orb aggregate].
  destruct (operation r); cbn [bind map]; change (sum []) with 0;
    match goal with
    | |- context [output_message dice [] ?x] =>
        destruct (output_message_nil dice x) as [msg ->];
        [first [ reflexivity
               | rewrite Z.add_0_l; exact Hk
               | rewrite Z.sub_0_l, exceeds_limit_opp; exact Hk ]
        | reflexivity]
    end.
Qed.

(** C3: ["3d0"] parses, with die type 0. For a parsed count of at
    least 1 and die type 0 nothing is reported: no error panel is
    printed, the first draw is on the empty range [1, 0] and the
    [ValueError] of [randint] escapes [roll_main]. *)
Theorem C3_zero_die_type :
  process_dice "3d0" = Some (mkDiceRoll 3 0 NO_OPERATION 0) /\
  forall dice r use_max use_min (g : Rng),
    process_dice dice = Some r -> 1 <= count r -> die_type r = 0 ->
    randint randbelow 1 (die_type r) g = Raise ValueError /\
    (forall op,
       roll randbelow (count r) (die_type r) op g = Raise ValueError) /\
    roll_main randbelow dice use_max use_min g = ([], Raise ValueError).
Proof.
  split; [reflexivity|]. intros dice r use_max use_min g Hp Hc Hd.
  assert (Hroll : forall op,
             roll randbelow (count r) (die_type r) op g = Raise ValueError).
  { intros op. unfold roll.
    destruct (Z.to_nat (count r)) eqn:E; [lia|].
    apply roll_range_empty_die. lia. }
  split; [apply randint_empty; lia|]. split; [exact Hroll|].
  unfold roll_main, roll_main_result. rewrite Hp.
  destruct (Z.leb_spec (count r) 0); [lia|].
  destruct (operation r); rewrite Hroll; reflexivity.
Qed.

(** C5: when the four draws of ["4d6.+1"] are 2, 5, 1 and 6,
    [roll_main] without [--max] and [--min] prints the individual
    results 3, 6, 2 and 7, each draw plus 1, and their sum 18. *)
Theorem C5_add_each_scenario (g g' : Rng) :
  roll randbelow 4 6 (fun x => x) g = Ok ([2; 5; 1; 6], g') ->
  process_dice "4d6.+1" = Some (mkDiceRoll 4 6 INDV_ADD 1) /\
  roll_main_result randbelow (mkDiceRoll 4 6 INDV_ADD 1) false false g =
  Ok ([3; 6; 2; 7], 18, g') /\
  roll_main randbelow "4d6.+1" false false g =
  ([OutputPanel "Roll" "4d6.+1" [3; 6; 2; 7] 18], Ok g').
Proof.
  intros H.
  assert (Hr : roll_main_result randbelow (mkDiceRoll 4 6 INDV_ADD 1)
                 false false g = Ok ([3; 6; 2; 7], 18, g')).
  { rewrite (roll_main_result_draws (mkDiceRoll 4 6 INDV_ADD 1)
               false false g _ _ H).
    reflexivity. }
  split; [reflexivity|]. split; [exact Hr|].
  unfold roll_main.
  change (process_dice "4d6.+1") with (Some (mkDiceRoll 4 6 INDV_ADD 1)).
  cbv iota. rewrite Hr. reflexivity.
Qed.

(** C6: for every count, die type, operand [k], pair of flags and
    random source, the outcome with operation [ADD] is the outcome with
    [NO_OPERATION] on the same draws with [k] added to the aggregate,
    and with [SUB] it is that outcome with [k] subtracted. Over given
    draws, [ADD] and [SUB] shift the aggregate of the draws by [k], and
    [NO_OPERATION], [INDV_ADD] and [INDV_SUB] leave the aggregate of the
    individual results as it stands. *)
Theorem C6_post_aggregation (n d k : Z) (use_max use_min : bool) (g : Rng) :
  roll_main_result randbelow (mkDiceRoll n d ADD k) use_max use_min g =
  ('(res, a, g') <-
     roll_main_result randbelow (mkDiceRoll n d NO_OPERATION k)
       use_max use_min g ;;
   Ok (res, a + k, g')) /\
  roll_main_result randbelow (mkDiceRoll n d SUB k) use_max use_min g =
  ('(res, a, g') <-
     roll_main_result randbelow (mkDiceRoll n d NO_OPERATION k)
       use_max use_min g ;;
   Ok (res, a - k, g')) /\
  forall draws g',
    roll randbelow n d (fun x => x) g = Ok (draws, g') ->
    roll_main_result randbelow (mkDiceRoll n d ADD k) use_max use_min g =
    (a <- aggregate use_max use_min draws ;; Ok (draws, a + k, g')) /\
    roll_main_result randbelow (mkDiceRoll n d SUB k) use_max use_min g =
    (a <- aggregate use_max use_min draws ;; Ok (draws, a - k, g')) /\
    roll_main_result randbelow (mkDiceRoll n d NO_OPERATION k)
      use_max use_min g =
    (a <- aggregate use_max use_min draws ;; Ok (draws, a, g')) /\
    roll_main_result randbelow (mkDiceRoll n d INDV_ADD k)
      use_max use_min g =
    (a <- aggregate use_max use_min (map (fun x => x + k) draws) ;;
     Ok (map (fun x => x + k) draws, a, g')) /\
    roll_main_result randbelow (mkDiceRoll n d INDV_SUB k)
      use_max use_min g =
    (a <- aggregate use_max use_min (map (fun x => x - k) draws) ;;
     Ok (map (fun x => x - k) draws, a, g')).
Proof.
  split; [|split].
  - unfold roll_main_result. simpl.
    destruct (roll randbelow n d (fun x => x) g) as [[res g']|e]; simpl;
      [|reflexivity].
    destruct (aggregate use_max use_min res); reflexivity.
  - unfold roll_main_result. simpl.
    destruct (roll randbelow n d (fun x => x) g) as [[res g']|e]; simpl;
      [|reflexivity].
    destruct (aggregate use_max use_min res); reflexivity.
  - intros draws g' H.
    repeat match goal with |- _ /\ _ => split end;
      match goal with
      | |- roll_main_result _ ?r _ _ _ = _ =>
          exact (roll_main_result_draws r use_max use_min g draws g' H)
      end.
Qed.

Hypothesis randbelow_range :
  forall n g, 0 < n -> 0 <= fst (randbelow n g) < n.

Lemma nth_range (raw : list Z) d :
  1 <= d ->
  (forall k, (k < List.length raw)%nat ->
     exists g, nth k raw 0 = 1 + fst (randbelow d g)) ->
  Forall (fun x => 1 <= x <= d) raw.
Proof.
  intros Hd H. apply Forall_forall. intros x Hx.
  destruct (In_nth _ _ 0 Hx) as (k & Hk & <-).
  destruct (H k Hk) as (g & ->).
  pose proof (randbelow_range d g). lia.
Qed.

(** C7: for a parsed spec with a die type of at least 1, the roll
    returns as many results as the count says, in the order of the
    draws; each draw lies in [1, die_type], and a result is its draw
    after the per-die operation. With at least one die, or under the
    sum, [roll_main_result] returns these results. *)
Theorem C7_roll_shape (dice : string) (r : DiceRoll) (g : Rng) :
  process_dice dice = Some r -> 1 <= die_type r ->
  exists raw g',
    roll randbelow (count r) (die_type r) (fun x => x) g = Ok (raw, g') /\
    Z.of_nat (List.length raw) = count r /\
    Forall (fun x => 1 <= x <= die_type r) raw /\
    (forall k, (k < List.length raw)%nat ->
       nth k raw 0 =
       1 + fst (randbelow (die_type r)
                  (advance randbelow k (die_type r) g))) /\
    (forall op,
       roll randbelow (count r) (die_type r) op g = Ok (map op raw, g')) /\
    (forall use_max use_min,
       use_max || use_min = false \/ 1 <= count r ->
       exists a,
         roll_main_result randbelow r use_max use_min g =
         Ok (match operation r with
             | INDV_ADD => map (fun x => x + operand r) raw
             | INDV_SUB => map (fun x => x - operand r) raw
             | _ => raw
             end, a, g')).
Proof.
  intros Hp Hd.
  destruct (process_dice_Some _ _ Hp) as (r1 & _ & _ & H1 & _).
  apply get_count_nonneg in H1.
  destruct (roll_range_draws (Z.to_nat (count r)) _ g Hd)
    as (raw & Hroll & Hlen & Hnth).
  fold (roll randbelow (count r) (die_type r) (fun x => x) g) in Hroll.
  exists raw, (advance randbelow (Z.to_nat (count r)) (die_type r) g).
  split; [exact Hroll|]. split; [lia|].
  split; [apply (nth_range raw _ Hd); rewrite Hlen; eauto|].
  split; [rewrite Hlen; exact Hnth|].
  split; [intros op; rewrite roll_map, Hroll; reflexivity|].
  intros use_max use_min Hmode.
  rewrite (roll_main_result_draws _ _ _ _ _ _ Hroll).
  assert (Hne : use_max || use_min = false \/ raw <> []).
  { destruct Hmode as [Hm|Hc]; [left; exact Hm | right].
    destruct raw; [simpl in Hlen; lia | discriminate]. }
  assert (Hmap : forall f : Z -> Z,
             use_max || use_min = false \/ map f raw <> []).
  { intros f. destruct Hne as [Hm|Hr]; [left; exact Hm | right].
    destruct raw; [congruence | discriminate]. }
  destruct (operation r).
  - destruct (aggregate_ok _ _ _ Hne) as (a & ->); simpl; eauto.
  - destruct (aggregate_ok _ _ _ Hne) as (a & ->); simpl; eauto.
  - destruct (aggregate_ok _ _ _ (Hmap (fun x => x + operand r))) as (a & ->);
      simpl; eauto.
  - destruct (aggregate_ok _ _ _ (Hmap (fun x => x - operand r))) as (a & ->);
      simpl; eauto.
  - destruct (aggregate_ok _ _ _ Hne) as (a & ->); simpl; eauto.
Qed.

End EvaluatorProperties.

(** * The claims at a scripted random source *)

Lemma script_randbelow_range :
  forall n g, 0 < n -> 0 <= fst (script_randbelow n g) < n.
Proof.
  intros n [|x g] Hn; simpl; [lia | apply Z.mod_pos_bound; exact Hn].
Qed.

Lemma C2_zero_count_witness :
  roll_main script_randbelow "0d6+5" false false [1; 4] =
  ([ErrorPanel "The number of dice rolled must be positive";
    OutputPanel "Roll" "0d6+5" [] 5], Ok [1; 4]) /\
  roll_main script_randbelow "0d6+5" true false [1; 4] =
  ([ErrorPanel "The number of dice rolled must be positive"],
   Raise ValueError).
Proof.
  split.
  - apply (C2_zero_count script_randbelow "0d6+5" (mkDiceRoll 0 6 ADD 5)
             false false [1; 4]); reflexivity.
  - apply (C2_zero_count script_randbelow "0d6+5" (mkDiceRoll 0 6 ADD 5)
             true false [1; 4]); reflexivity.
Defined.

Lemma C3_zero_die_type_witness :
  roll_main script_randbelow "3d0" false false [1; 4] =
  ([], Raise ValueError).
Proof.
  apply (proj2 (C3_zero_die_type script_randbelow)
           "3d0" (mkDiceRoll 3 0 NO_OPERATION 0) false false [1; 4]);
    [reflexivity | simpl; lia | reflexivity].
Defined.

Lemma C5_add_each_scenario_witness :
  roll_main script_randbelow "4d6.+1" false false [1; 4; 0; 5] =
  ([OutputPanel "Roll" "4d6.+1" [3; 6; 2; 7] 18], Ok []).
Proof.
  apply (C5_add_each_scenario script_randbelow [1; 4; 0; 5] []).
  reflexivity.
Defined.

Lemma C6_post_aggregation_witness :
  roll_main_result script_randbelow (mkDiceRoll 4 6 ADD 3) true false
    [1; 4; 0; 5] = Ok ([2; 5; 1; 6], 9, []) /\
  roll_main_result script_randbelow (mkDiceRoll 4 6 SUB 3) true false
    [1; 4; 0; 5] = Ok ([2; 5; 1; 6], 3, []).
Proof.
  destruct (proj2 (proj2 (C6_post_aggregation script_randbelow 4 6 3
                            true false [1; 4; 0; 5]))
              [2; 5; 1; 6] [] eq_refl) as (Hadd & Hsub & _).
  split; [exact Hadd | exact Hsub].
Defined.

Lemma C7_roll_shape_witness :
  exists raw g',
    roll script_randbelow 3 6 (fun x => x) [7; 12; 5] = Ok (raw, g') /\
    Z.of_nat (List.length raw) = 3 /\
    Forall (fun x => 1 <= x <= 6) raw.
Proof.
  destruct (C7_roll_shape script_randbelow script_randbelow_range
              "3d6" (mkDiceRoll 3 6 NO_OPERATION 0) [7; 12; 5])
    as (raw & g' & H1 & H2 & H3 & _);
    [reflexivity | simpl; lia |].
  exists raw, g'. split; [exact H1 | split; [exact H2 | exact H3]].
Defined.

(** * Further properties of the parser *)

(** What [split] returns, read backwards: the first piece has no
    separator, and either it is the whole string or the string is the
    piece, a separator and a rest that splits into the other pieces. *)
Lemma split_inv sep s : forall p ps,
  split sep s = p :: ps ->
  lacks sep p = true /\
  (ps = [] /\ s = p \/
   exists s', s = (p ++ String sep s')%string /\ split sep s' = ps /\ ps <> []).
Proof.
  induction s as [|c s IH]; intros p ps; simpl.
  - intros [= <- <-]. split; [reflexivity | left; split; reflexivity].
  - destruct (Ascii.eqb_spec c sep) as [->|Hc].
    + intros [= <- <-]. split; [reflexivity|]. right. exists s.
      split; [reflexivity|]. split; [reflexivity | apply split_nonempty].
    + destruct (split sep s) as [|q qs] eqn:E;
        [destruct (split_nonempty _ _ E)|].
      intros [= <- <-]. destruct (IH _ _ eq_refl) as (Hl & Hs).
      split.
      * simpl. rewrite Hl. destruct (Ascii.eqb_spec c sep); [congruence|].
        reflexivity.
      * destruct Hs as [(-> & ->)|(s' & -> & Hsp & Hne)].
        -- left. split; reflexivity.
        -- right. exists s'. split; [reflexivity | split; assumption].
Qed.

Lemma int_Ok s n :
  int s = Ok n ->
  s <> EmptyString /\ all_decimal s = true /\ too_long s = false /\
  n = digits_value s 0.
Proof.
  rewrite int_spec. destruct s as [|c s]; [discriminate|].
  destruct (all_decimal (String c s)) eqn:E; [|discriminate].
  destruct (too_long (String c s)) eqn:Ec; [discriminate|].
  cbn [andb negb]. intros H.
  split; [discriminate|]. split; [reflexivity|].
  split; [reflexivity | congruence].
Qed.

Lemma get_count_inv dice n rest :
  get_count dice = Ok (n, rest) ->
  exists s,
    dice = (s ++ String "d" rest)%string /\ s <> EmptyString /\
    all_decimal s = true /\ too_long s = false /\
    lacks "d" rest = true /\ n = digits_value s 0.
Proof.
  unfold get_count.
  destruct (split "d" dice) as [|s0 [|s1 [|s2 ps]]] eqn:E; simpl;
    rewrite ?orb_true_r; try discriminate.
  rewrite orb_false_r.
  destruct (isnumeric s0); simpl; [|discriminate].
  destruct (int s0) as [v|e] eqn:Ei; simpl; [|discriminate].
  intros [= <- <-].
  destruct (int_Ok _ _ Ei) as (Hne & Hd & Hcap & Hv).
  destruct (split_inv _ _ _ _ E) as (_ & [(Hnil & _)|(s' & -> & Hsp & _)]);
    [discriminate|].
  destruct (split_inv _ _ _ _ Hsp) as (Hl & [(_ & ->)|(s'' & _ & _ & Hne')]);
    [|congruence].
  exists s0. repeat split; auto.
Qed.

Lemma get_die_type_loop_inv s : forall acc i v j,
  get_die_type_loop s acc i = Ok (v, j) ->
  exists ds rest,
    s = (ds ++ rest)%string /\ all_decimal ds = true /\ stops rest = true /\
    v = digits_value ds acc /\ j = (i + String.length ds)%nat.
Proof.
  induction s as [|c s IH]; intros acc i v j; simpl.
  - intros [= <- <-]. exists EmptyString, EmptyString.
    rewrite Nat.add_0_r. auto.
  - destruct (char_isnumeric c) eqn:Ec.
    + destruct (char_decimal c) as [d|] eqn:Ed; simpl; [|discriminate].
      intros H. destruct (IH _ _ _ _ H) as (ds & rest & -> & Hd & Hs & -> & ->).
      exists (String c ds), rest. simpl.
      rewrite Ed, (char_decimal_value _ _ Ed), Nat.add_succ_r. auto.
    + intros [= <- <-]. exists EmptyString, (String c s). simpl.
      rewrite Ec, Nat.add_0_r. auto.
Qed.

Lemma get_die_type_inv dice v rest :
  get_die_type dice = Ok (v, rest) ->
  exists ds,
    dice = (ds ++ rest)%string /\ ds <> EmptyString /\
    all_decimal ds = true /\ stops rest = true /\ v = digits_value ds 0.
Proof.
  unfold get_die_type.
  destruct (get_die_type_loop dice 0 0) as [[n i]|e] eqn:E; simpl;
    [|discriminate].
  destruct (get_die_type_loop_inv _ _ _ _ _ E)
    as (ds & rest' & -> & Hd & Hs & -> & ->).
  cbn [Nat.add bind]. rewrite slice_from_app.
  destruct ds as [|c ds]; [discriminate|].
  cbn [String.length Nat.eqb]. intros [= <- <-].
  exists (String c ds). repeat split; auto. discriminate.
Qed.

Lemma get_operation_inv dice op rest :
  get_operation dice = Ok (op, rest) ->
  dice = (sign_of op ++ rest)%string /\
  (op = NO_OPERATION -> rest = EmptyString).
Proof.
  destruct dice as [|c0 rest1]; simpl.
  - intros [= <- <-]. auto.
  - destruct (Ascii.eqb_spec c0 "+") as [->|_].
    { intros [= <- <-]. split; [reflexivity | discriminate]. }
    destruct (Ascii.eqb_spec c0 "-") as [->|_].
    { intros [= <- <-]. split; [reflexivity | discriminate]. }
    destruct (Ascii.eqb_spec c0 ".") as [->|_]; [|discriminate].
    destruct rest1 as [|c1 rest2]; [discriminate|].
    destruct (Ascii.eqb_spec c1 "+") as [->|_].
    { intros [= <- <-]. split; [reflexivity | discriminate]. }
    destruct (Ascii.eqb_spec c1 "-") as [->|_]; [|discriminate].
    intros [= <- <-]. split; [reflexivity | discriminate].
Qed.

Lemma get_operation_sign dice op rest :
  dice = (sign_of op ++ rest)%string ->
  (op = NO_OPERATION -> rest = EmptyString) ->
  get_operation dice = Ok (op, rest).
Proof.
  intros -> H. destruct op; try reflexivity.
  rewrite (H eq_refl). reflexivity.
Qed.

Lemma get_operand_Ok t k :
  get_operand t = Ok k ->
  all_decimal t = true /\ too_long t = false /\
  k = match t with
      | EmptyString => 0
      | String _ _ => digits_value t 0
      end.
Proof.
  rewrite get_operand_spec. destruct t as [|a t]; [intros [= <-]; auto|].
  destruct (all_decimal (String a t)); [|discriminate].
  destruct (too_long (String a t)); [discriminate|]. cbn [andb negb].
  intros H. split; [reflexivity|]. split; [reflexivity | congruence].
Qed.

Lemma process_dice_parses_as dice r :
  process_dice dice = Some r -> parses_as dice r.
Proof.
  intros H.
  destruct (process_dice_Some _ _ H) as (r1 & r2 & r3 & H1 & H2 & H3 & H4).
  destruct (get_count_inv _ _ _ H1) as (c & -> & Hc & Hcd & Hcc & _ & Hcv).
  destruct (get_die_type_inv _ _ _ H2) as (m & -> & Hm & Hmd & _ & Hmv).
  destruct (get_operation_inv _ _ _ H3) as (-> & Hop).
  destruct (get_operand_Ok _ _ H4) as (Ht & Htc & Hk).
  exists c, m, r3. repeat split; auto.
Qed.

Lemma sign_of_lacks op : lacks "d" (sign_of op) = true.
Proof. destruct op; reflexivity. Qed.

Lemma parses_as_process_dice dice r :
  parses_as dice r -> process_dice dice = Some r.
Proof.
  intros (c & m & t & -> & Hc & Hcd & Hcc & Hcv & Hm & Hmd & Hmv & Hop &
          Ht & Htc & Hk).
  rewrite process_dice_digits; auto using all_decimal_lacks.
  - rewrite (get_operation_sign _ (operation r) t eq_refl Hop). cbn [bind].
    rewrite get_operand_spec, <- Hcv, <- Hmv.
    destruct r as [n d op k]. cbn [count die_type operation operand] in *.
    destruct t as [|a t]; [|rewrite Ht, Htc]; rewrite Hk; reflexivity.
  - rewrite lacks_app, sign_of_lacks, (all_decimal_lacks _ Ht). reflexivity.
  - destruct (operation r) eqn:E; try reflexivity.
    rewrite (Hop eq_refl). reflexivity.
Qed.

Lemma str_N_nonempty k : str_N k <> EmptyString.
Proof.
  destruct k as [|p]; [discriminate | exact (str_nonempty p)].
Qed.

Lemma all_decimal_str_N k : all_decimal (str_N k) = true.
Proof. apply all_decimal_string_of_uint. Qed.

Lemma digits_value_str_N k : digits_value (str_N k) 0 = Z.of_N k.
Proof.
  destruct k as [|p]; [reflexivity | exact (digits_value_str p)].
Qed.

Lemma all_numeric_lacks s : all_numeric s = true -> lacks "d" s = true.
Proof.
  induction s as [|c s IH]; simpl; [reflexivity|].
  intros H. apply andb_true_iff in H as [Hc Hs]. rewrite (IH Hs), andb_true_r.
  destruct (Ascii.eqb_spec c "d") as [->|]; [discriminate Hc | reflexivity].
Qed.

(** Two strings without the separator that are followed by it in the
    same string are the same. *)
Lemma app_sep_inj sep s : forall s' t t',
  lacks sep s = true -> lacks sep s' = true ->
  (s ++ String sep t)%string = (s' ++ String sep t')%string ->
  s = s' /\ t = t'.
Proof.
  induction s as [|c s IH]; intros [|c' s'] t t'; simpl.
  - intros _ _ [= <-]. auto.
  - intros _ H [= <- _]. rewrite Ascii.eqb_refl in H. discriminate.
  - intros H _ [= -> _]. rewrite Ascii.eqb_refl in H. discriminate.
  - intros H H' [= <- E].
    apply andb_true_iff in H as [_ H], H' as [_ H'].
    destruct (IH _ _ _ H H' E) as [-> ->]. auto.
Qed.

(** X1: [get_count] succeeds exactly on a non-empty run of decimal
    digits, no more of them than [int] accepts (4300), followed by the
    only ['d'] of the string, and then returns the value of the run and
    everything after the ['d']. *)
Theorem X1_get_count_iff (dice : string) (n : Z) (rest : string) :
  get_count dice = Ok (n, rest) <->
  exists s,
    dice = (s ++ String "d" rest)%string /\ s <> EmptyString /\
    all_decimal s = true /\ too_long s = false /\
    lacks "d" rest = true /\ n = digits_value s 0.
Proof.
  split; [apply get_count_inv|].
  intros (s & -> & Hne & Hd & Hcap & Hl & ->).
  apply get_count_digits; assumption.
Qed.

(** X2: [get_die_type] takes the longest run of digits at the front: it
    succeeds exactly when the string is a non-empty run of decimal digits
    followed by a rest that is empty or starts with a character that is
    not numeric, and returns the value of the run and that rest. *)
Theorem X2_get_die_type_iff (dice : string) (v : Z) (rest : string) :
  get_die_type dice = Ok (v, rest) <->
  exists ds,
    dice = (ds ++ rest)%string /\ ds <> EmptyString /\
    all_decimal ds = true /\ stops rest = true /\ v = digits_value ds 0.
Proof.
  split; [apply get_die_type_inv|].
  intros (ds & -> & Hne & Hd & Hs & ->). apply get_die_type_digits; assumption.
Qed.

(** X3: [get_operation] reads back the sign of each operation and leaves
    the rest untouched: it returns [op] and [rest] exactly when the
    string is the sign of [op] followed by [rest], the rest being empty
    when there is no operation. *)
Theorem X3_get_operation_iff (dice : string) (op : RollOperation)
  (rest : string) :
  get_operation dice = Ok (op, rest) <->
  dice = (sign_of op ++ rest)%string /\
  (op = NO_OPERATION -> rest = EmptyString).
Proof.
  split; [apply get_operation_inv|].
  intros [H1 H2]. apply get_operation_sign; assumption.
Qed.

(** X4: the strings that [process_dice] accepts, and the spec of each:
    a non-empty decimal count, one ['d'], a non-empty decimal die type,
    and then nothing (no operation, operand 0) or one of the four signs
    followed by a decimal operand, which may be empty (operand 0); the
    count and the operand have no more digits than [int] accepts
    (4300), the die type as many as it likes. *)
Theorem X4_process_dice_language (dice : string) (r : DiceRoll) :
  process_dice dice = Some r <-> parses_as dice r.
Proof.
  split; [apply process_dice_parses_as | apply parses_as_process_dice].
Qed.

(** X5: writing a spec in the notation of the help text and parsing it
    gives the spec back, for every positive count and die type, every
    operation and every operand that is not negative, as long as the
    count and the operand have no more digits than [int] accepts
    (4300). *)
Theorem X5_notation_round_trip (c m : positive) (op : RollOperation) (k : N) :
  too_long (str c) = false -> too_long (str_N k) = false ->
  process_dice (notation c m op k) =
  Some (mkDiceRoll (Zpos c) (Zpos m) op
          match op with
          | NO_OPERATION => 0
          | _ => Z.of_N k
          end).
Proof.
  intros Hc Hk. unfold notation.
  destruct op;
    try (rewrite (process_dice_modifier _ _ _ _ Hc) by discriminate;
         generalize (str_N_nonempty k) (all_decimal_str_N k)
                    (digits_value_str_N k) Hk;
         destruct (str_N k); intros Hne Hd Hv Hcap; [congruence|];
         rewrite Hd, Hv, Hcap; reflexivity).
  rewrite process_dice_str; auto.
Qed.

Lemma X5_notation_round_trip_witness :
  process_dice "12d20.-3" = Some (mkDiceRoll 12 20 INDV_SUB 3).
Proof.
  apply (X5_notation_round_trip 12 20 INDV_SUB 3); reflexivity.
Defined.

(** X6: a zero in front of a count that stays within the limit of
    [int] (4300 digits, the zero included) changes nothing: the longer
    string parses to the same spec. *)
Theorem X6_leading_zero (c rest : string) (r : DiceRoll) :
  lacks "d" c = true -> too_long (String "0" c) = false ->
  process_dice (c ++ String "d" rest) = Some r ->
  process_dice (String "0" (c ++ String "d" rest)) = Some r.
Proof.
  intros Hl Hcap H. apply parses_as_process_dice.
  destruct (process_dice_parses_as _ _ H)
    as (c' & m & t & Heq & Hc & Hcd & Hcc & Hcv & Hrest).
  destruct (app_sep_inj _ _ _ _ _ Hl (all_decimal_lacks _ Hcd) Heq)
    as [-> ->].
  exists (String "0" c'), m, t.
  split; [reflexivity|]. split; [discriminate|].
  split; [exact Hcd|]. split; [exact Hcap|].
  split; [exact Hcv | exact Hrest].
Qed.

Lemma X6_leading_zero_witness :
  process_dice "03d6.-2" = Some (mkDiceRoll 3 6 INDV_SUB 2).
Proof. apply (X6_leading_zero "3" "6.-2"); reflexivity. Defined.

(** X7: a count that passes [isnumeric] without being made of decimal
    digits (a superscript digit, a fraction) is refused by [int], and
    the parse fails like any other. *)
Theorem X7_numeric_not_decimal (s rest : string) :
  isnumeric s = true -> all_decimal s = false ->
  get_count (s ++ String "d" rest) = Raise ValueError /\
  process_dice (s ++ String "d" rest) = None.
Proof.
  intros Hn Hd.
  assert (Hc : get_count (s ++ String "d" rest) = Raise ValueError).
  { destruct (get_count (s ++ String "d" rest)) as [[n r]|[]] eqn:E;
      [|reflexivity].
    destruct (get_count_inv _ _ _ E) as (s' & Heq & _ & Hd' & _).
    assert (Hl : lacks "d" s = true).
    { apply all_numeric_lacks. destruct s; [discriminate | exact Hn]. }
    destruct (app_sep_inj _ _ _ _ _ Hl (all_decimal_lacks _ Hd') Heq)
      as [-> _].
    congruence. }
  split; [exact Hc|]. unfold process_dice. rewrite Hc. reflexivity.
Qed.

Lemma X7_numeric_not_decimal_witness :
  process_dice (String (ascii_of_N 178) "d6") = None.
Proof.
  apply (X7_numeric_not_decimal (String (ascii_of_N 178) EmptyString) "6");
    reflexivity.
Defined.

(** * Further properties of the evaluator *)

(** *** When the message of the output panel cannot be built *)

Lemma str_int_raises x :
  (exists e, str_int x = Raise e) <-> exceeds_limit x = true.
Proof.
  unfold str_int. destruct (exceeds_limit x).
  - split; [reflexivity | eauto].
  - split; [intros [e He]; discriminate | discriminate].
Qed.

Lemma repr_items_raises l :
  (exists e, repr_items l = Raise e) <-> existsb exceeds_limit l = true.
Proof.
  induction l as [|x l IH].
  - split; [intros [e He]; discriminate He | discriminate].
  - destruct l as [|y l].
    + cbn [repr_items existsb]. rewrite orb_false_r, <- str_int_raises.
      destruct (str_int x) as [s|e1]; cbn [bind];
        (split; [intros [e He]; try discriminate He; eauto | auto]).
    + change (repr_items (x :: y :: l)) with
        (s <- str_int x ;;
         rest <- repr_items (y :: l) ;; Ok (s ++ ", " ++ rest)%string).
      change (existsb exceeds_limit (x :: y :: l)) with
        (exceeds_limit x || existsb exceeds_limit (y :: l)).
      rewrite orb_true_iff, <- IH, <- str_int_raises.
      destruct (str_int x) as [s|e1];
        destruct (repr_items (y :: l)) as [rest|e2]; cbn [bind];
        (split;
         [ intros [e He]; try discriminate He; eauto
         | intros [[e He]|[e He]]; try discriminate He; eauto ]).
Qed.

(** The f-string raises exactly when an individual result or the
    aggregate has more digits than the limit allows. *)
Lemma output_message_raises dice l x :
  (exists e, output_message dice l x = Raise e) <->
  existsb exceeds_limit l || exceeds_limit x = true.
Proof.
  unfold output_message, repr_list.
  rewrite orb_true_iff, <- repr_items_raises, <- str_int_raises.
  destruct (repr_items l) as [items|e]; cbn [bind].
  - destruct (str_int x) as [final|e]; cbn [bind].
    + split; [intros [e He]; discriminate|].
      intros [[e He]|[e He]]; discriminate.
    + split; eauto.
  - split; eauto.
Qed.

Lemma sum_cons x l : sum (x :: l) = x + sum l.
Proof. rewrite !sum_spec. reflexivity. Qed.

Lemma sum_map_add k l :
  sum (map (fun x => x + k) l) = sum l + Z.of_nat (List.length l) * k.
Proof.
  induction l as [|x l IH]; [reflexivity|].
  cbn [map List.length]. rewrite !sum_cons, IH. lia.
Qed.

Lemma fold_left_max_add k l : forall x,
  fold_left Z.max (map (fun x => x + k) l) (x + k) = fold_left Z.max l x + k.
Proof.
  induction l as [|y l IH]; intros x; simpl; [reflexivity|].
  rewrite Z.add_max_distr_r. apply IH.
Qed.

Lemma fold_left_min_add k l : forall x,
  fold_left Z.min (map (fun x => x + k) l) (x + k) = fold_left Z.min l x + k.
Proof.
  induction l as [|y l IH]; intros x; simpl; [reflexivity|].
  rewrite Z.add_min_distr_r. apply IH.
Qed.

(** Adding [k] to every element adds [k] to the largest and to the
    smallest, and [k] times the length to the sum. *)
Lemma aggregate_map_add use_max use_min k l :
  aggregate use_max use_min (map (fun x => x + k) l) =
  a <- aggregate use_max use_min l ;;
  Ok (a + if use_max || use_min then k else Z.of_nat (List.length l) * k).
Proof.
  unfold aggregate. destruct use_max; [|destruct use_min]; simpl.
  - destruct l as [|x l]; simpl; [reflexivity|].
    rewrite fold_left_max_add. reflexivity.
  - destruct l as [|x l]; simpl; [reflexivity|].
    rewrite fold_left_min_add. reflexivity.
  - rewrite sum_map_add. reflexivity.
Qed.

Lemma sum_bounds lo hi l :
  Forall (fun x => lo <= x <= hi) l ->
  Z.of_nat (List.length l) * lo <= sum l <= Z.of_nat (List.length l) * hi.
Proof.
  induction 1 as [|x l Hx _ IH]; [rewrite sum_spec; simpl; lia|].
  rewrite sum_cons. cbn [List.length]. lia.
Qed.

Lemma aggregate_bounds use_max use_min lo hi l a :
  Forall (fun x => lo <= x <= hi) l ->
  aggregate use_max use_min l = Ok a ->
  if use_max || use_min then lo <= a <= hi
  else Z.of_nat (List.length l) * lo <= a <=
       Z.of_nat (List.length l) * hi.
Proof.
  intros Hl. unfold aggregate. rewrite Forall_forall in Hl.
  destruct use_max; [|destruct use_min]; simpl.
  - intros H. apply max_spec in H as [H _]. auto.
  - intros H. apply min_spec in H as [H _]. auto.
  - intros [= <-]. apply sum_bounds. apply Forall_forall. exact Hl.
Qed.

Lemma Forall_map_add (k lo hi : Z) l :
  Forall (fun x => lo <= x <= hi) l ->
  Forall (fun x => lo + k <= x <= hi + k) (map (fun x => x + k) l).
Proof.
  induction 1; simpl; constructor; [lia | assumption].
Qed.

Section EvaluatorFurther.

Context {Rng : Type}.
Variable randbelow : Z -> Rng -> Z * Rng.

Lemma randint_inv d g x g1 :
  randint randbelow 1 d g = Ok (x, g1) ->
  1 <= d /\ x = 1 + fst (randbelow d g) /\ g1 = snd (randbelow d g).
Proof.
  destruct (Z.le_gt_cases 1 d) as [H|H].
  - rewrite (randint_draw randbelow _ _ H). intros [= <- <-]. auto.
  - rewrite randint_empty by lia. discriminate.
Qed.

(** A roll that returns has drawn once per die. *)
Lemma roll_range_state n d op : forall g res g',
  roll_range randbelow n d op g = Ok (res, g') ->
  g' = advance randbelow n d g /\ List.length res = n.
Proof.
  induction n as [|n IH]; intros g res g'; simpl.
  - intros [= <- <-]. auto.
  - destruct (randint randbelow 1 d g) as [[x g1]|e] eqn:E; simpl;
      [|discriminate].
    destruct (randint_inv _ _ _ _ E) as (_ & _ & ->).
    destruct (roll_range randbelow n d op (snd (randbelow d g)))
      as [[xs g2]|e] eqn:Er; simpl; [|discriminate].
    intros [= <- <-]. destruct (IH _ _ _ Er) as [-> <-]. auto.
Qed.

Lemma roll_main_result_state r use_max use_min g res a g' :
  roll_main_result randbelow r use_max use_min g = Ok (res, a, g') ->
  g' = advance randbelow (Z.to_nat (count r)) (die_type r) g /\
  List.length res = Z.to_nat (count r).
Proof.
  unfold roll_main_result, roll.
  destruct (operation r);
    match goal with
    | |- context [roll_range randbelow ?n ?d ?op g] =>
        destruct (roll_range randbelow n d op g) as [[l g1]|e] eqn:E
    end; simpl; try discriminate;
    destruct (aggregate use_max use_min l); simpl; try discriminate;
    intros [= <- _ <-]; exact (roll_range_state _ _ _ _ _ _ E).
Qed.

(** When the evaluation of a spec raises. *)
Lemma roll_main_result_raises r use_max use_min g :
  0 <= count r -> 0 <= die_type r ->
  (exists e, roll_main_result randbelow r use_max use_min g = Raise e) <->
  (1 <= count r /\ die_type r = 0 \/
   count r = 0 /\ use_max || use_min = true).
Proof.
  intros Hc Hd.
  destruct (Z.eq_dec (count r) 0) as [Hc0|Hc0].
  - assert (Hroll : roll randbelow (count r) (die_type r) (fun x => x) g =
                    Ok ([], g)).
    { unfold roll. rewrite Hc0. reflexivity. }
    rewrite (roll_main_result_draws randbelow _ use_max use_min _ _ _ Hroll).
    split.
    + intros [e He]. right. split; [exact Hc0|].
      destruct (operation r), use_max, use_min; simpl in *;
        try reflexivity; discriminate.
    + intros [[H _]|[_ H]]; [lia|]. exists ValueError.
      destruct (operation r), use_max, use_min; simpl in *;
        try reflexivity; discriminate.
  - destruct (Z.eq_dec (die_type r) 0) as [Hd0|Hd0].
    + split; [intros _; left; split; [lia | exact Hd0]|].
      intros _. exists ValueError. unfold roll_main_result, roll.
      destruct (Z.to_nat (count r)) eqn:E; [lia|].
      destruct (operation r);
        rewrite roll_range_empty_die by lia; reflexivity.
    + split; [|intros [[_ H]|[H _]]; congruence].
      intros [e He]. exfalso.
      destruct (roll_range_draws randbelow (Z.to_nat (count r))
                  (die_type r) g) as (raw & Hroll & Hlen & _); [lia|].
      fold (roll randbelow (count r) (die_type r) (fun x => x) g) in Hroll.
      rewrite (roll_main_result_draws randbelow _ use_max use_min _ _ _ Hroll)
        in He.
      assert (Hne : forall f : Z -> Z,
                 use_max || use_min = false \/ map f raw <> []).
      { intros f. right. destruct raw; [simpl in Hlen; lia | discriminate]. }
      assert (Hne' : use_max || use_min = false \/ raw <> []).
      { right. destruct raw; [simpl in Hlen; lia | discriminate]. }
      destruct (operation r).
      * destruct (aggregate_ok _ _ _ Hne') as (a & Ha);
          rewrite Ha in He; discriminate.
      * destruct (aggregate_ok _ _ _ Hne') as (a & Ha);
          rewrite Ha in He; discriminate.
      * destruct (aggregate_ok _ _ _ (Hne (fun x => x + operand r)))
          as (a & Ha); rewrite Ha in He; discriminate.
      * destruct (aggregate_ok _ _ _ (Hne (fun x => x - operand r)))
          as (a & Ha); rewrite Ha in He; discriminate.
      * destruct (aggregate_ok _ _ _ Hne') as (a & Ha);
          rewrite Ha in He; discriminate.
Qed.

(** X8: an exception escapes [roll_main] in three cases only, all after
    a successful parse: at least one die of type 0; no die at all under
    [--max] or [--min]; or a roll that returns an individual result or
    an aggregate of more digits than [str] writes (4300), on which the
    f-string of the output raises. In every other case [roll_main]
    returns. *)
Theorem X8_roll_main_raises (dice : string) (use_max use_min : bool)
  (g : Rng) :
  (exists e, snd (roll_main randbelow dice use_max use_min g) = Raise e) <->
  exists r,
    process_dice dice = Some r /\
    (1 <= count r /\ die_type r = 0 \/
     count r = 0 /\ use_max || use_min = true \/
     exists res a g',
       roll_main_result randbelow r use_max use_min g = Ok (res, a, g') /\
       existsb exceeds_limit res || exceeds_limit a = true).
Proof.
  unfold roll_main. destruct (process_dice dice) as [r|] eqn:Hp.
  - destruct (process_dice_Some _ _ Hp) as (r1 & r2 & _ & H1 & H2 & _).
    pose proof (roll_main_result_raises r use_max use_min g
                  (get_count_nonneg _ _ _ H1)
                  (get_die_type_nonneg _ _ _ H2)) as Hiff.
    split.
    + intros [e He]. exists r. split; [reflexivity|].
      destruct (roll_main_result randbelow r use_max use_min g)
        as [[[res a] g']|e'] eqn:E.
      * right. right. exists res, a, g'. split; [reflexivity|].
        apply (proj1 (output_message_raises dice res a)).
        destruct (output_message dice res a) as [msg|e0];
          [discriminate He | eauto].
      * destruct (proj1 Hiff (ex_intro _ e' eq_refl)) as [H|H]; auto.
    + intros (r' & [= <-] & [Hcase|[Hcase|Hcase]]).
      * destruct (proj2 Hiff (or_introl Hcase)) as [e He].
        rewrite He. exists e. reflexivity.
      * destruct (proj2 Hiff (or_intror Hcase)) as [e He].
        rewrite He. exists e. reflexivity.
      * destruct Hcase as (res & a & g' & E & Hx). rewrite E.
        destruct (proj2 (output_message_raises dice res a) Hx) as [e He].
        rewrite He. exists e. reflexivity.
  - split; [intros [e He]; discriminate | intros (r & Hr & _); discriminate].
Qed.

(** X9: per-die addition against addition to the aggregate. Over the
    same draws, adding [k] to every die gives, under [--max] or [--min],
    the aggregate of adding [k] once, and under the sum the aggregate of
    adding [k] times the count; the same holds for subtraction. *)
Theorem X9_per_die_against_aggregate (n d k : Z) (use_max use_min : bool)
  (g : Rng) :
  0 <= n ->
  roll_main_result randbelow (mkDiceRoll n d INDV_ADD k) use_max use_min g =
  ('(res, a, g') <-
     roll_main_result randbelow
       (mkDiceRoll n d ADD (if use_max || use_min then k else n * k))
       use_max use_min g ;;
   Ok (map (fun x => x + k) res, a, g')) /\
  roll_main_result randbelow (mkDiceRoll n d INDV_SUB k) use_max use_min g =
  ('(res, a, g') <-
     roll_main_result randbelow
       (mkDiceRoll n d SUB (if use_max || use_min then k else n * k))
       use_max use_min g ;;
   Ok (map (fun x => x - k) res, a, g')).
Proof.
  intros Hn.
  destruct (roll randbelow n d (fun x => x) g) as [[draws g']|e] eqn:E.
  - pose proof (roll_range_state _ _ _ _ _ _ E) as [_ Hlen].
    assert (Hl : Z.of_nat (List.length draws) = n) by lia.
    rewrite
      (roll_main_result_draws randbelow (mkDiceRoll n d INDV_ADD k)
         use_max use_min g draws g' E),
      (roll_main_result_draws randbelow (mkDiceRoll n d INDV_SUB k)
         use_max use_min g draws g' E),
      (roll_main_result_draws randbelow
         (mkDiceRoll n d ADD (if use_max || use_min then k else n * k))
         use_max use_min g draws g' E),
      (roll_main_result_draws randbelow
         (mkDiceRoll n d SUB (if use_max || use_min then k else n * k))
         use_max use_min g draws g' E).
    cbn [operation operand].
    assert (Hsub : map (fun x => x - k) draws = map (fun x => x + - k) draws).
    { apply map_ext. intros x. lia. }
    rewrite Hsub, !aggregate_map_add, Hl.
    destruct (aggregate use_max use_min draws) as [a|e]; simpl;
      [|split; reflexivity].
    destruct (use_max || use_min); split; do 3 f_equal; lia.
  - unfold roll_main_result. cbn [operation count die_type operand].
    rewrite (roll_map randbelow n d (fun x => x + k)),
            (roll_map randbelow n d (fun x => x - k)), E.
    split; reflexivity.
Qed.

(** X10: [roll_main] draws from the random source once per die and not
    otherwise: when it returns, the source has advanced by as many draws
    as the count says, whatever the operation and the flags, and it is
    untouched after a parse failure. *)
Theorem X10_draws_consumed (dice : string) (use_max use_min : bool)
  (g g' : Rng) :
  snd (roll_main randbelow dice use_max use_min g) = Ok g' ->
  g' = match process_dice dice with
       | None => g
       | Some r => advance randbelow (Z.to_nat (count r)) (die_type r) g
       end.
Proof.
  unfold roll_main. destruct (process_dice dice) as [r|].
  - destruct (roll_main_result randbelow r use_max use_min g)
      as [[[res a] g1]|e] eqn:E; [|discriminate].
    destruct (output_message dice res a); [|discriminate].
    intros [= <-]. exact (proj1 (roll_main_result_state _ _ _ _ _ _ _ E)).
  - simpl. congruence.
Qed.

Hypothesis randbelow_range :
  forall n g, 0 < n -> 0 <= fst (randbelow n g) < n.

Lemma roll_range_in_range n d : forall g raw g',
  roll_range randbelow n d (fun x => x) g = Ok (raw, g') ->
  Forall (fun x => 1 <= x <= d) raw.
Proof.
  induction n as [|n IH]; intros g raw g'; cbn [roll_range].
  - intros [= <- _]. constructor.
  - destruct (randint randbelow 1 d g) as [[x g1]|e] eqn:E; cbn [bind];
      [|discriminate].
    destruct (randint_inv _ _ _ _ E) as (Hd & Hx & ->).
    destruct (roll_range randbelow n d (fun x => x) (snd (randbelow d g)))
      as [[xs g2]|e] eqn:Er; cbn [bind]; [|discriminate].
    intros [= <- _]. constructor; [|exact (IH _ _ _ Er)].
    assert (H0 : 0 < d) by lia.
    pose proof (randbelow_range d g H0). lia.
Qed.

(** X11: what a roll can show. Every individual result lies in
    [1, die_type] moved by the per-die shift of the spec; under [--max]
    or [--min] the final aggregate lies in that range moved by the
    aggregate shift, and under the sum it lies between the count times
    the lower bound and the count times the upper bound, moved by the
    aggregate shift. *)
Theorem X11_result_bounds (r : DiceRoll) (use_max use_min : bool)
  (g g' : Rng) (res : list Z) (a : Z) :
  0 <= count r ->
  roll_main_result randbelow r use_max use_min g = Ok (res, a, g') ->
  Z.of_nat (List.length res) = count r /\
  Forall (fun x => 1 + per_die_shift r <= x <= die_type r + per_die_shift r)
    res /\
  if use_max || use_min
  then 1 + per_die_shift r + aggregate_shift r <= a <=
       die_type r + per_die_shift r + aggregate_shift r
  else count r * (1 + per_die_shift r) + aggregate_shift r <= a <=
       count r * (die_type r + per_die_shift r) + aggregate_shift r.
Proof.
  intros Hc H.
  destruct (roll_main_result_state _ _ _ _ _ _ _ H) as [_ Hlen].
  assert (Hl : Z.of_nat (List.length res) = count r) by lia.
  split; [exact Hl|].
  destruct (roll randbelow (count r) (die_type r) (fun x => x) g)
    as [[draws g1]|e] eqn:E.
  2:{ unfold roll_main_result in H.
      destruct (operation r);
        try rewrite (roll_map randbelow _ _ (fun x => x + operand r)) in H;
        try rewrite (roll_map randbelow _ _ (fun x => x - operand r)) in H;
        rewrite E in H; discriminate. }
  pose proof (roll_range_in_range _ _ _ _ _ E) as Hraw.
  rewrite (roll_main_result_draws randbelow _ use_max use_min _ _ _ E) in H.
  unfold per_die_shift, aggregate_shift. rewrite <- Hl. clear Hl Hlen Hc.
  assert (Hsub : map (fun x => x - operand r) draws =
                 map (fun x => x + - operand r) draws).
  { apply map_ext. intros x. lia. }
  assert (Hplain : Forall (fun x => 1 + 0 <= x <= die_type r + 0) draws).
  { eapply Forall_impl; [|exact Hraw]. cbv beta. intros x Hx. lia. }
  destruct (operation r).
  - destruct (aggregate use_max use_min draws) as [a0|e] eqn:Ea;
      cbn [bind] in H; [|discriminate].
    injection H as <- <- _. split; [exact Hplain|].
    pose proof (aggregate_bounds _ _ _ _ _ _ Hraw Ea) as Hb.
    destruct (use_max || use_min); lia.
  - destruct (aggregate use_max use_min draws) as [a0|e] eqn:Ea;
      cbn [bind] in H; [|discriminate].
    injection H as <- <- _. split; [exact Hplain|].
    pose proof (aggregate_bounds _ _ _ _ _ _ Hraw Ea) as Hb.
    destruct (use_max || use_min); lia.
  - pose proof (Forall_map_add (operand r) _ _ _ Hraw) as Hres.
    destruct (aggregate use_max use_min (map (fun x => x + operand r) draws))
      as [a0|e] eqn:Ea; cbn [bind] in H; [|discriminate].
    injection H as <- <- _. split; [exact Hres|].
    pose proof (aggregate_bounds _ _ _ _ _ _ Hres Ea) as Hb.
    destruct (use_max || use_min); lia.
  - rewrite Hsub in H.
    pose proof (Forall_map_add (- operand r) _ _ _ Hraw) as Hres.
    destruct (aggregate use_max use_min
                (map (fun x => x + - operand r) draws))
      as [a0|e] eqn:Ea; cbn [bind] in H; [|discriminate].
    injection H as <- <- _. split; [exact Hres|].
    pose proof (aggregate_bounds _ _ _ _ _ _ Hres Ea) as Hb.
    destruct (use_max || use_min); lia.
  - destruct (aggregate use_max use_min draws) as [a0|e] eqn:Ea;
      cbn [bind] in H; [|discriminate].
    injection H as <- <- _. split; [exact Hplain|].
    pose proof (aggregate_bounds _ _ _ _ _ _ Hraw Ea) as Hb.
    destruct (use_max || use_min); lia.
Qed.

(** X12: a die with one face always shows 1: for every count and
    per-die operation the results are that many copies of the operation
    applied to 1, whatever the random source; so ["1d1"] prints [[1]]
    and 1 under every choice of flags. *)
Theorem X12_one_faced_die (n : Z) (op : Z -> Z) (use_max use_min : bool)
  (g : Rng) :
  roll randbelow n 1 op g =
  Ok (repeat (op 1) (Z.to_nat n), advance randbelow (Z.to_nat n) 1 g) /\
  roll_main randbelow "1d1" use_max use_min g =
  ([OutputPanel "Roll" "1d1" [1] 1], Ok (snd (randbelow 1 g))).
Proof.
  assert (Hroll : forall k g0,
             roll_range randbelow k 1 op g0 =
             Ok (repeat (op 1) k, advance randbelow k 1 g0)).
  { induction k as [|k IH]; intros g0; simpl; [reflexivity|].
    rewrite (randint_draw randbelow 1 g0) by lia. simpl. rewrite IH. simpl.
    pose proof (randbelow_range 1 g0).
    replace (fst (randbelow 1 g0)) with 0 by lia. reflexivity. }
  split; [apply Hroll|].
  unfold roll_main, roll_main_result.
  change (process_dice "1d1") with (Some (mkDiceRoll 1 1 NO_OPERATION 0)).
  cbn [operation count die_type operand]. unfold roll.
  rewrite (roll_range_map randbelow).
  assert (Hid : roll_range randbelow (Z.to_nat 1) 1 (fun x => x) g =
                Ok ([1], snd (randbelow 1 g))).
  { simpl. rewrite (randint_draw randbelow 1 g) by lia. simpl.
    pose proof (randbelow_range 1 g).
    replace (fst (randbelow 1 g)) with 0 by lia. reflexivity. }
  rewrite Hid. destruct use_max, use_min; reflexivity.
Qed.

End EvaluatorFurther.

(** X13: the three aggregates of the same results agree with each other:
    what [--min] selects is at most what [--max] selects, and the sum
    lies between the length times the one and the length times the
    other. *)
Theorem X13_aggregates_ordered (l : list Z) (lo hi : Z) :
  aggregate true false l = Ok hi -> aggregate false true l = Ok lo ->
  lo <= hi /\
  exists s,
    aggregate false false l = Ok s /\
    Z.of_nat (List.length l) * lo <= s <= Z.of_nat (List.length l) * hi.
Proof.
  unfold aggregate. intros Hmax Hmin.
  destruct (max_spec _ _ Hmax) as [Hin Hle].
  destruct (min_spec _ _ Hmin) as [_ Hge].
  rewrite Forall_forall in Hle, Hge.
  split; [apply Hge; exact Hin|].
  eexists. split; [reflexivity|].
  apply sum_bounds. apply Forall_forall. intros x Hx. split; auto.
Qed.

Lemma X13_aggregates_ordered_witness :
  1 <= 6 /\
  exists s,
    aggregate false false [2; 5; 1; 6] = Ok s /\
    Z.of_nat 4 * 1 <= s <= Z.of_nat 4 * 6.
Proof. apply (X13_aggregates_ordered [2; 5; 1; 6] 1 6); reflexivity. Defined.

Lemma X8_roll_main_raises_witness :
  exists e, snd (roll_main script_randbelow "0d6" true false [3]) = Raise e.
Proof.
  apply (X8_roll_main_raises script_randbelow "0d6" true false [3]).
  exists (mkDiceRoll 0 6 NO_OPERATION 0).
  split; [reflexivity | right; left; split; reflexivity].
Defined.

Lemma X9_per_die_against_aggregate_witness :
  roll_main_result script_randbelow (mkDiceRoll 4 6 INDV_ADD 1) false false
    [1; 4; 0; 5] =
  ('(res, a, g') <-
     roll_main_result script_randbelow (mkDiceRoll 4 6 ADD 4) false false
       [1; 4; 0; 5] ;;
   Ok (map (fun x => x + 1) res, a, g')).
Proof.
  apply (X9_per_die_against_aggregate script_randbelow 4 6 1 false false
           [1; 4; 0; 5]).
  lia.
Defined.

Lemma X10_draws_consumed_witness :
  [7; 8] = advance script_randbelow (Z.to_nat 2) 6 [1; 4; 7; 8].
Proof.
  apply (X10_draws_consumed script_randbelow "2d6.+3" true false
           [1; 4; 7; 8] [7; 8]).
  reflexivity.
Defined.

Lemma X11_result_bounds_witness :
  Z.of_nat (List.length [0; 3; -1; 4]) = 4 /\
  Forall (fun x => 1 + -2 <= x <= 6 + -2) [0; 3; -1; 4] /\
  4 * (1 + -2) + 0 <= 6 <= 4 * (6 + -2) + 0.
Proof.
  apply (X11_result_bounds script_randbelow script_randbelow_range
           (mkDiceRoll 4 6 INDV_SUB 2) false false [1; 4; 0; 5] []);
    [simpl; lia | reflexivity].
Defined.

Lemma X12_one_faced_die_witness :
  roll script_randbelow 3 1 (fun x => x + 2) [5; 9; 4; 7] =
  Ok ([3; 3; 3], [7]) /\
  roll_main script_randbelow "1d1" true true [5; 9; 4; 7] =
  ([OutputPanel "Roll" "1d1" [1] 1], Ok [9; 4; 7]).
Proof.
  apply (X12_one_faced_die script_randbelow script_randbelow_range
           3 (fun x => x + 2) true true [5; 9; 4; 7]).
Defined.
